(** * PyTeCK [pyteck/simulation.py]: a shallow embedding and its properties

    The module drives a Cantera reactor network to an end time, stores the
    trajectory, and extracts ignition delays from it.  The embedding follows
    the Python source function by function.

    Conventions.
    - A Python [float] (and a numpy [float64] entry) is a rational [Q], and
      an arithmetic expression of the source is the same expression over
      [Q], without the rounding of binary64; infinities and not-a-number
      results of arithmetic are outside the model.  The properties rest on
      what rounding leaves untouched: the comparisons the code makes, the
      values it copies, the exceptions it raises and the formulas it
      evaluates.  The one statement about exact values, that of the
      difference formulas on quadratics, is a statement about arithmetic
      without rounding; [Float64] holds the same formulas in binary64 and
      shows what rounding does to it.  The one not-a-number the source
      writes on purpose ([numpy.nan * units.second]) is the constructor
      [NaN] of [delay].
    - A one-dimensional numpy array is a [list]; an index array is a
      [list nat]; a boolean mask is a [list bool].
    - A raised exception is the [Raise] constructor of [result].
    - pint quantities are their magnitudes in seconds. *)

From Stdlib Require Import String Ascii.
From Stdlib Require Import List Arith Bool Lia ZArith.
From Stdlib Require Import QArith Qabs Qround Qfield Lqa Sorted.
From Stdlib Require Import PrimFloat.
Import ListNotations.

Close Scope Q_scope.
Set Implicit Arguments.

(* ================================================================== *)
(** * Part I. The embedding *)
(* ================================================================== *)

(** ** Exceptions *)

Inductive exn : Type :=
| ValueError
| IndexError
| NameError
| UnboundLocalError
| CanteraError.

Inductive result (A : Type) : Type :=
| Ok (a : A)
| Raise (e : exn).

Arguments Ok {A} a.
Arguments Raise {A} e.

Definition bind {A B : Type} (c : result A) (k : A -> result B) : result B :=
  match c with
  | Ok a => k a
  | Raise e => Raise e
  end.

Notation "x <- c ;; k" := (bind c (fun x => k))
  (at level 61, c at next level, right associativity).
Notation "' pat <- c ;; k" := (bind c (fun x => match x with pat => k end))
  (at level 61, pat pattern, c at next level, right associativity).

Fixpoint mapM {A B : Type} (f : A -> result B) (l : list A) : result (list B) :=
  match l with
  | [] => Ok []
  | a :: l' => b <- f a ;; bs <- mapM f l' ;; Ok (b :: bs)
  end.

(** ** The numpy operations the module calls *)

Module Numpy.

(** [a[i]] for a non-negative integer [i]. *)
Definition getitem {A : Type} (a : list A) (i : nat) : result A :=
  match nth_error a i with
  | Some v => Ok v
  | None => Raise IndexError
  end.

(** [a[idx]] for an integer index array [idx]. *)
Definition take {A : Type} (a : list A) (idx : list nat) : result (list A) :=
  mapM (getitem a) idx.

(** [a[mask]] for a boolean mask; numpy refuses a mask of another length. *)
Fixpoint compress {A : Type} (mask : list bool) (a : list A) : list A :=
  match mask, a with
  | b :: mask', v :: a' => if b then v :: compress mask' a' else compress mask' a'
  | _, _ => []
  end.

Definition bool_index {A : Type} (a : list A) (mask : list bool) : result (list A) :=
  if Nat.eqb (length mask) (length a) then Ok (compress mask a)
  else Raise IndexError.

(** [numpy.where(mask)[0]]: the positions at which the mask holds. *)
Fixpoint where_from (i : nat) (mask : list bool) : list nat :=
  match mask with
  | [] => []
  | b :: mask' => if b then i :: where_from (S i) mask' else where_from (S i) mask'
  end.

Definition where_ (mask : list bool) : list nat := where_from 0 mask.

Definition Qlt_bool (x y : Q) : bool := negb (Qle_bool y x).

(** [numpy.argmax]: the first position of the largest entry. *)
Fixpoint argmax_from (best_i : nat) (best : Q) (i : nat) (a : list Q) : nat :=
  match a with
  | [] => best_i
  | v :: a' =>
      if Qlt_bool best v then argmax_from i v (S i) a'
      else argmax_from best_i best (S i) a'
  end.

Definition argmax (a : list Q) : result nat :=
  match a with
  | [] => Raise ValueError
  | v :: a' => Ok (argmax_from 0 v 1 a')
  end.

(** [numpy.argmin] (the method [.argmin()]): the first position of the
    smallest entry. *)
Fixpoint argmin_from (best_i : nat) (best : Q) (i : nat) (a : list Q) : nat :=
  match a with
  | [] => best_i
  | v :: a' =>
      if Qlt_bool v best then argmin_from i v (S i) a'
      else argmin_from best_i best (S i) a'
  end.

Definition argmin (a : list Q) : result nat :=
  match a with
  | [] => Raise ValueError
  | v :: a' => Ok (argmin_from 0 v 1 a')
  end.

(** [numpy.max]. *)
Definition max (a : list Q) : result Q :=
  match a with
  | [] => Raise ValueError
  | v :: a' => Ok (fold_left (fun m w => if Qlt_bool m w then w else m) a' v)
  end.

(** [a[i]] where the surrounding code has already checked the bounds. *)
Definition at_ (a : list Q) (i : nat) : Q := nth i a 0%Q.

(** [numpy.diff]. *)
Definition diff (x : list Q) : list Q :=
  map (fun i => (at_ x (S i) - at_ x i)%Q) (seq 0 (length x - 1)).

(** [numpy.gradient(f, x, edge_order=2)] for one-dimensional [f] and a
    coordinate array [x] (numpy/lib/function_base.py).  The checks come in
    numpy's order: the coordinate array must have the length of [f]
    ([ValueError]); the spacings [diffx = numpy.diff(x)] are compared with
    [diffx[0]], an [IndexError] when there is no spacing, that is with
    fewer than two samples; at least [edge_order + 1] samples are required
    ([ValueError]).  When all the spacings are equal numpy takes the
    uniform-spacing formulas, otherwise the formulas weighted by the two
    neighbouring spacings. *)
Definition gradient (f x : list Q) : result (list Q) :=
  let n := length f in
  if negb (Nat.eqb (length x) n) then Raise ValueError
  else if Nat.ltb n 2 then Raise IndexError
  else if Nat.ltb n 3 then Raise ValueError
  else
    let ax_dx := diff x in
    let uniform_spacing := forallb (fun d => Qeq_bool d (at_ ax_dx 0)) ax_dx in
    let h := at_ ax_dx 0 in
    (* out[1:-1] *)
    let interior :=
      map (fun k =>
             if uniform_spacing then
               (at_ f (k + 2) - at_ f k) / (2 * h)
             else
               let dx1 := at_ ax_dx k in
               let dx2 := at_ ax_dx (k + 1) in
               let a := - dx2 / (dx1 * (dx1 + dx2)) in
               let b := (dx2 - dx1) / (dx1 * dx2) in
               let c := dx1 / (dx2 * (dx1 + dx2)) in
               a * at_ f k + b * at_ f (k + 1) + c * at_ f (k + 2))%Q
          (seq 0 (n - 2)) in
    (* out[0] *)
    let first :=
      (if uniform_spacing then
         let a := - (3 # 2) / h in
         let b := 2 / h in
         let c := - (1 # 2) / h in
         a * at_ f 0 + b * at_ f 1 + c * at_ f 2
       else
         let dx1 := at_ ax_dx 0 in
         let dx2 := at_ ax_dx 1 in
         let a := - (2 * dx1 + dx2) / (dx1 * (dx1 + dx2)) in
         let b := (dx1 + dx2) / (dx1 * dx2) in
         let c := - dx1 / (dx2 * (dx1 + dx2)) in
         a * at_ f 0 + b * at_ f 1 + c * at_ f 2)%Q in
    (* out[-1] *)
    let last :=
      (if uniform_spacing then
         let a := (1 # 2) / h in
         let b := - (2) / h in
         let c := (3 # 2) / h in
         a * at_ f (n - 3) + b * at_ f (n - 2) + c * at_ f (n - 1)
       else
         let dx1 := at_ ax_dx (n - 3) in
         let dx2 := at_ ax_dx (n - 2) in
         let a := dx2 / (dx1 * (dx1 + dx2)) in
         let b := - (dx2 + dx1) / (dx1 * dx2) in
         let c := (2 * dx2 + dx1) / (dx2 * (dx1 + dx2)) in
         a * at_ f (n - 3) + b * at_ f (n - 2) + c * at_ f (n - 1))%Q in
    Ok (first :: interior ++ [last]).

(** [numpy.interp(x, xp, fp, left, right)] for a scalar [x]
    (numpy/core/src/multiarray/compiled_base.c).  The interval is found by
    the search numpy runs on short arrays: the last [j] reached while
    [x >= xp[j]]; on increasing [xp] the bisection used on longer arrays
    gives the same [j]. *)
Fixpoint search (x : Q) (xp : list Q) (i : nat) : nat :=
  match xp with
  | [] => i
  | v :: xp' => if Qle_bool v x then search x xp' (S i) else i
  end.

Definition interp (x : Q) (xp fp : list Q) (left right : option Q) : result Q :=
  let n := length xp in
  if Nat.eqb n 0 then Raise ValueError
  else if negb (Nat.eqb (length fp) n) then Raise ValueError
  else
    let lval := match left with Some l => l | None => at_ fp 0 end in
    let rval := match right with Some r => r | None => at_ fp (n - 1) end in
    if Qlt_bool (at_ xp (n - 1)) x then Ok rval
    else if Qlt_bool x (at_ xp 0) then Ok lval
    else
      let j := search x (tl xp) 0 in
      if Nat.eqb j (n - 1) then Ok (at_ fp j)
      else if Qeq_bool (at_ xp j) x then Ok (at_ fp j)
      else
        let slope := ((at_ fp (j + 1) - at_ fp j) / (at_ xp (j + 1) - at_ xp j))%Q in
        Ok (slope * (x - at_ xp j) + at_ fp j)%Q.

(** [numpy.arange(start, stop, step)]: [ceil((stop - start) / step)]
    samples [start + k * step].  numpy takes the ceiling of the binary64
    quotient; the quotient here is exact, so the number of samples can
    differ by one where the quotient is within rounding of an integer. *)
Definition arange (start stop step : Q) : list Q :=
  map (fun k => (start + inject_Z (Z.of_nat k) * step)%Q)
      (seq 0 (Z.to_nat (Qceiling ((stop - start) / step)))).

End Numpy.

(** ** [first_derivative] (lines 33-46) *)

Definition first_derivative (x y : list Q) : result (list Q) :=
  Numpy.gradient y x.

(** *** The same in binary64

    [numpy.gradient] again, on the numbers numpy computes with: IEEE 754
    binary64, every operation rounded to nearest, in the order in which
    the source expression is evaluated.  The checks and the formulas are
    those of [Numpy.gradient]; the comparison of the spacings is the
    floating-point [==]. *)
Module Float64.

Local Open Scope float_scope.

Definition at_ (a : list float) (i : nat) : float := nth i a 0.

Definition diff (x : list float) : list float :=
  map (fun i => at_ x (S i) - at_ x i) (seq 0 (length x - 1)).

Definition gradient (f x : list float) : result (list float) :=
  let n := length f in
  if negb (Nat.eqb (length x) n) then Raise ValueError
  else if Nat.ltb n 2 then Raise IndexError
  else if Nat.ltb n 3 then Raise ValueError
  else
    let ax_dx := diff x in
    let uniform_spacing := forallb (fun d => PrimFloat.eqb d (at_ ax_dx 0)) ax_dx in
    let h := at_ ax_dx 0 in
    (* out[1:-1] *)
    let interior :=
      map (fun k =>
             if uniform_spacing then
               (at_ f (k + 2) - at_ f k) / (2 * h)
             else
               let dx1 := at_ ax_dx k in
               let dx2 := at_ ax_dx (k + 1) in
               let a := - dx2 / (dx1 * (dx1 + dx2)) in
               let b := (dx2 - dx1) / (dx1 * dx2) in
               let c := dx1 / (dx2 * (dx1 + dx2)) in
               a * at_ f k + b * at_ f (k + 1) + c * at_ f (k + 2))
          (seq 0 (n - 2)) in
    (* out[0] *)
    let first :=
      (if uniform_spacing then
         let a := - 1.5 / h in
         let b := 2 / h in
         let c := - 0.5 / h in
         a * at_ f 0 + b * at_ f 1 + c * at_ f 2
       else
         let dx1 := at_ ax_dx 0 in
         let dx2 := at_ ax_dx 1 in
         let a := - (2 * dx1 + dx2) / (dx1 * (dx1 + dx2)) in
         let b := (dx1 + dx2) / (dx1 * dx2) in
         let c := - dx1 / (dx2 * (dx1 + dx2)) in
         a * at_ f 0 + b * at_ f 1 + c * at_ f 2) in
    (* out[-1] *)
    let last :=
      (if uniform_spacing then
         let a := 0.5 / h in
         let b := - 2 / h in
         let c := 1.5 / h in
         a * at_ f (n - 3) + b * at_ f (n - 2) + c * at_ f (n - 1)
       else
         let dx1 := at_ ax_dx (n - 3) in
         let dx2 := at_ ax_dx (n - 2) in
         let a := dx2 / (dx1 * (dx1 + dx2)) in
         let b := - (dx2 + dx1) / (dx1 * dx2) in
         let c := (2 * dx2 + dx1) / (dx2 * (dx1 + dx2)) in
         a * at_ f (n - 3) + b * at_ f (n - 2) + c * at_ f (n - 1)) in
    Ok (first :: interior ++ [last]).

(** [first_derivative] on binary64 arrays. *)
Definition first_derivative (x y : list float) : result (list float) :=
  gradient y x.

End Float64.

(** ** Boundary profiles (lines 49-186) *)

(** The thermodynamic collaborator of [create_volume_history]: the density
    Cantera reports after [gas.SP = initial_entropy, p], and the density of
    the initial state. *)
Section Thermo.

Variable density_at_SP : Q -> Q.
Variable initial_density : Q.

(** [sample_rising_pressure] (lines 49-61). *)
Definition sample_rising_pressure (time_end init_pres freq pressure_rise_rate : Q)
  : list Q * list Q :=
  let times := Numpy.arange 0 (time_end + 1 / freq) (1 / freq) in
  let pressures := map (fun t => init_pres * (pressure_rise_rate * t + 1))%Q times in
  (times, pressures).

(** [create_volume_history] (lines 64-91). *)
Definition create_volume_history (pres pres_rise time_end : Q) : list Q * list Q :=
  let freq := 20000%Q in
  let '(times, pressures) := sample_rising_pressure time_end pres freq pres_rise in
  let volumes := map (fun p => initial_density / density_at_SP p)%Q pressures in
  (times, volumes).

End Thermo.

(** [volume_history.time.magnitude] and [volume_history.volume.magnitude]. *)
Record VolumeHistory : Type := {
  vh_time : list Q;
  vh_volume : list Q
}.

(** The state of a [VolumeProfile] object: [self.times], [self.velocity]. *)
Record VolumeProfile : Type := {
  times : list Q;
  velocity : list Q
}.

(** [VolumeProfile.__init__] (lines 106-127). *)
Definition VolumeProfile_init (volume_history : VolumeHistory) : result VolumeProfile :=
  v0 <- Numpy.getitem (vh_volume volume_history) 0 ;;
  let volumes := map (fun v => v / v0)%Q (vh_volume volume_history) in
  vel <- first_derivative (vh_time volume_history) volumes ;;
  Ok {| times := vh_time volume_history; velocity := vel |}.

(** [PressureRiseProfile.__init__] (lines 167-186). *)
Definition PressureRiseProfile_init (density_at_SP : Q -> Q) (initial_density : Q)
    (initial_pres pressure_rise time_end : Q) : result VolumeProfile :=
  let '(ts, volumes) :=
    create_volume_history density_at_SP initial_density initial_pres pressure_rise time_end in
  vel <- first_derivative ts volumes ;;
  Ok {| times := ts; velocity := vel |}.

(** [VolumeProfile.__call__] (lines 129-136), inherited by
    [PressureRiseProfile]. *)
Definition VolumeProfile_call (self : VolumeProfile) (time : Q) : result Q :=
  Numpy.interp time (times self) (velocity self) (Some 0%Q) (Some 0%Q).

(** A profile one of the two constructors returned. *)
Definition synthesized (p : VolumeProfile) : Prop :=
  (exists vh, VolumeProfile_init vh = Ok p) \/
  (exists rho rho0 pres rise t_end, PressureRiseProfile_init rho rho0 pres rise t_end = Ok p).

(** ** Python strings *)

Definition lower_ascii (c : ascii) : ascii :=
  let n := nat_of_ascii c in
  if (65 <=? n) && (n <=? 90) then ascii_of_nat (n + 32) else c.

(** [s.lower()] on ASCII text. *)
Fixpoint lower (s : string) : string :=
  match s with
  | EmptyString => EmptyString
  | String c s' => String (lower_ascii c) (lower s')
  end.

(** [s[-1]]: the last character; an [IndexError] on the empty string. *)
Fixpoint last_char (s : string) : result ascii :=
  match s with
  | EmptyString => Raise IndexError
  | String c EmptyString => Ok c
  | String _ s' => last_char s'
  end.

(** [s[:-1]]. *)
Fixpoint drop_last (s : string) : string :=
  match s with
  | EmptyString => EmptyString
  | String _ EmptyString => EmptyString
  | String c s' => String c (drop_last s')
  end.

(** ** [Simulation.setup_case], the ignition target (lines 309-340) *)

(** [properties.ignition_type] before the call: the dictionary with the
    keys ['target'] and ['type']. *)
Record IgnitionType : Type := {
  target : string;
  type_ : string
}.

(** [properties.ignition_target] after the call: one of the two strings, or
    a species index. *)
Inductive IgnitionTarget : Type :=
| Pressure
| Temperature
| Species (ind : nat).

(** What the block leaves behind: the two properties and the lines printed. *)
Record Resolved : Type := {
  ignition_target : IgnitionTarget;
  ignition_type : string;
  printed : list string
}.

Section SetupCase.

(** [self.gas.species_index]: the index of a species, [ValueError] when the
    mechanism has no species of that name. *)
Variable species_index : string -> result nat.

(** The loop of lines 321-327: the first candidate whose lookup does not
    raise [ValueError]; [None] when every lookup does. *)
Fixpoint find_species (try_list : list string) : result (option nat) :=
  match try_list with
  | [] => Ok None
  | sp :: rest =>
      match species_index sp with
      | Ok i => Ok (Some i)
      | Raise ValueError => find_species rest
      | Raise e => Raise e
      end
  end.

(** The candidates of lines 315-319. *)
Definition try_list_of (spec : string) : result (list string) :=
  c <- last_char spec ;;
  Ok (if Ascii.eqb c "*"%char
      then [spec; lower spec] ++ [drop_last spec; lower (drop_last spec)]
      else [spec; lower spec]).

(** Python's truth value of [ind]: [None] and [0] are false. *)
Definition truthy (ind : option nat) : bool :=
  match ind with
  | None => false
  | Some O => false
  | Some (S _) => true
  end.

Definition warning (spec : string) : string :=
  ("Warning: " ++ spec ++ " not found in model; falling back on pressure.")%string.

Definition setup_case (it : IgnitionType) : result Resolved :=
  if negb (String.eqb (target it) "pressure" || String.eqb (target it) "temperature") then
    let spec := target it in
    try_list <- try_list_of spec ;;
    ind <- find_species try_list ;;
    if truthy ind then
      Ok {| ignition_target := Species (match ind with Some i => i | None => 0 end);
            ignition_type := type_ it;
            printed := [] |}
    else
      Ok {| ignition_target := Pressure;
            ignition_type := "d/dt max";
            printed := [warning spec] |}
  else
    Ok {| ignition_target :=
            if String.eqb (target it) "pressure" then Pressure else Temperature;
          ignition_type := type_ it;
          printed := [] |}.

End SetupCase.

(** A mechanism given by its list of species names: the index of the first
    species of that name. *)
Fixpoint index_of (names : list string) (sp : string) : result nat :=
  match names with
  | [] => Raise ValueError
  | n :: names' =>
      if String.eqb n sp then Ok 0
      else i <- index_of names' sp ;; Ok (S i)
  end.

(** ** [Simulation.run_case] (lines 346-437) *)

(** One row of the table [simulation]; also what is read off the reactor
    at one instant ([reac_net.time], [reac.T], [reac.thermo.P],
    [reac.volume], [reac.Y]). *)
Record Row : Type := {
  time : Q;
  temperature : Q;
  pressure : Q;
  volume : Q;
  mass_fractions : list Q
}.

(** The reactor network as the driver uses it: [step] advances it by one
    step of the integrator's own choice (a [CanteraError] when the
    integrator fails), [observe] reads the current state.  Each read of
    [reac.Y] is a fresh array, so the rows hold values. *)
Class ReactorNet (N : Type) : Type := {
  step : N -> result N;
  observe : N -> Row
}.

(** How a run stands after a number of loop iterations: the loop was left
    and the table flushed, an exception left the function, or the loop
    condition still holds. *)
Inductive outcome : Type :=
| Finished (table : list Row)
| Failed (e : exn)
| Looping (table : list Row).

Section RunCase.

Context {N : Type} `{ReactorNet N}.

Variable time_end : Q.

(** The row written when the step went past [time_end] (lines 392-415).
    [prev] holds the [prev_*] variables. *)
Definition interpolated_row (prev now : Row) : result Row :=
  let at_end (a b : Q) :=
    Numpy.interp time_end [time prev; time now] [a; b] None None in
  temp <- at_end (temperature prev) (temperature now) ;;
  pres <- at_end (pressure prev) (pressure now) ;;
  vol <- at_end (volume prev) (volume now) ;;
  mass_fracs <-
    mapM (fun i =>
            a <- Numpy.getitem (mass_fractions prev) i ;;
            b <- Numpy.getitem (mass_fractions now) i ;;
            at_end a b)
         (seq 0 (length (mass_fractions now))) ;;
  Ok {| time := time_end; temperature := temp; pressure := pres;
        volume := vol; mass_fractions := mass_fracs |}.

(** The [while] loop of lines 387-432, unrolled at most [fuel] times.
    [prev] is [None] until the assignments of lines 428-432 have run once:
    reading [prev_time] before that is an [UnboundLocalError]. *)
Fixpoint integrate (fuel : nat) (net : N) (prev : option Row) (table : list Row)
  : outcome :=
  if Numpy.Qlt_bool (time (observe net)) time_end then
    match fuel with
    | O => Looping table
    | S fuel' =>
        match step net with
        | Raise e => Failed e
        | Ok net' =>
            let now := observe net' in
            if Numpy.Qlt_bool time_end (time now) then
              match prev with
              | None => Failed UnboundLocalError
              | Some p =>
                  match interpolated_row p now with
                  | Raise e => Failed e
                  | Ok r => integrate fuel' net' (Some now) (table ++ [r])
                  end
              end
            else integrate fuel' net' (Some now) (table ++ [now])
        end
    end
  else Finished table.

(** [run_case] with [restart=False]: the initial row (lines 377-383), then
    the loop. *)
Definition run_case (fuel : nat) (net : N) : outcome :=
  integrate fuel net None [observe net].

(** The network after [k] steps, when none of them failed. *)
Fixpoint steps (k : nat) (net : N) : result N :=
  match k with
  | O => Ok net
  | S k' => net' <- step net ;; steps k' net'
  end.

(** The loop has been left: the run is over, with the table or with an
    exception. *)
Definition halted (o : outcome) : Prop :=
  match o with
  | Looping _ => False
  | _ => True
  end.

(** Within [k] steps the integrator has failed, or its time is no longer
    below [time_end]. *)
Definition reaches_end_or_fails (k : nat) (net : N) : Prop :=
  match steps k net with
  | Ok net_k => (time_end <= time (observe net_k))%Q
  | Raise _ => True
  end.

(** Every one of the first [k] steps succeeds and leaves the integrator's
    time below [time_end]. *)
Definition stays_below_end (k : nat) (net : N) : Prop :=
  forall j, j <= k ->
    exists net_j, steps j net = Ok net_j /\ (time (observe net_j) < time_end)%Q.

End RunCase.

(** A network that replays a script of states and then stays in the last
    one for every further step. *)
Record Script : Type := {
  now : Row;
  later : list Row
}.

#[global] Instance Script_ReactorNet : ReactorNet Script := {
  step s :=
    match later s with
    | [] => Ok s
    | r :: rest => Ok {| now := r; later := rest |}
    end;
  observe s := now s
}.

(** An integrator whose first step goes from [t = 0] to [t = 2]. *)
Definition one_long_step : Script :=
  {| now := {| time := 0; temperature := 1000; pressure := 1; volume := 1;
               mass_fractions := [1; 0]%Q |};
     later := [ {| time := 2; temperature := 1400; pressure := 3; volume := 1;
                   mass_fractions := [0; 1]%Q |} ] |}.

(** An integrator that takes the steps [t = 0, 1, 4]. *)
Definition two_steps : Script :=
  {| now := {| time := 0; temperature := 1000; pressure := 1; volume := 1;
               mass_fractions := [1; 0]%Q |};
     later := [ {| time := 1; temperature := 1100; pressure := 2; volume := 1;
                   mass_fractions := [(3 # 4); (1 # 4)]%Q |};
                {| time := 4; temperature := 1400; pressure := 5; volume := 1;
                   mass_fractions := [0; 1]%Q |} ] |}.

(** An integrator whose time never advances. *)
Definition stalled : Script :=
  {| now := {| time := 0; temperature := 1000; pressure := 1; volume := 1;
               mass_fractions := [1; 0]%Q |};
     later := [] |}.

(** ** [Simulation.process_results] (lines 439-508) *)

(** A delay with its unit: seconds, or [numpy.nan * units.second]. *)
Inductive delay : Type :=
| Seconds (t : Q)
| NaN.

(** The two entries written into [self.meta]. *)
Record Delays : Type := {
  simulated_ignition_delay : delay;
  simulated_first_stage_delay : delay
}.

(** Lines 448-454: the column the target names. *)
Definition target_column (table : list Row) (ignition_target : IgnitionTarget)
  : result (list Q) :=
  match ignition_target with
  | Pressure => Ok (map pressure table)
  | Temperature => Ok (map temperature table)
  | Species k => mapM (fun r => Numpy.getitem (mass_fractions r) k) table
  end.

Section ProcessResults.

(** [detect_peaks] of [pyteck/detect_peaks.py], called with its default
    arguments: the indices of the peaks of a signal. *)
Variable detect_peaks : list Q -> list nat.

(** Lines 461-471: the series searched and its peaks. *)
Definition find_peaks (ignition_type : string) (time target : list Q)
  : result (list Q * list nat) :=
  target <- (if String.eqb ignition_type "d/dt max"
             then first_derivative time target else Ok target) ;;
  let ind := detect_peaks target in
  if Nat.eqb (length ind) 0 && String.eqb ignition_type "max" then
    target' <- first_derivative time target ;;
    Ok (target', detect_peaks target')
  else Ok (target, ind).

(** Lines 474 and 488: [ind[numpy.argmax(target[ind])]]. *)
Definition largest_peak (target : list Q) (ind : list nat) : result nat :=
  heights <- Numpy.take target ind ;;
  k <- Numpy.argmax heights ;;
  Numpy.getitem ind k.

(** Lines 481-483.  The mask of the inner comparison is taken over
    [ind[ind <= max_ind]]; [numpy.where] turns it into positions, and the
    positions index [ind] itself. *)
Definition qualifying (time : list Q) (ind : list nat) (max_ind : nat) (time_comp : Q)
  : result (list nat) :=
  before <- Numpy.bool_index ind (map (fun i => i <=? max_ind) ind) ;;
  t_before <- Numpy.take time before ;;
  let pos := Numpy.where_ (map (fun t => Numpy.Qlt_bool 0 (t - time_comp)) t_before) in
  Numpy.take ind pos.

(** Lines 477-479: the compression time, [0.0] when there is none. *)
Definition time_comp_of (compression_time : option Q) : Q :=
  match compression_time with
  | Some c => c
  | None => 0%Q
  end.

(** Lines 460-483: the branch of ['max'] and ['d/dt max']. *)
Definition ign_delays_max (ignition_type : string) (time target : list Q)
    (compression_time : option Q) : result (list Q) :=
  '(target, ind) <- find_peaks ignition_type time target ;;
  max_ind <- largest_peak target ind ;;
  let time_comp := time_comp_of compression_time in
  members <- qualifying time ind max_ind time_comp ;;
  t_members <- Numpy.take time members ;;
  Ok (map (fun t => t - time_comp)%Q t_members).

(** Lines 484-494: the branch of ['1/2 max']. *)
Definition ign_delays_half_max (time target : list Q) : result (list Q) :=
  max_val <- Numpy.max target ;;
  let ind := detect_peaks target in
  max_ind <- largest_peak target ind ;;
  half_idx <- Numpy.argmin
                (map (fun v => Qabs (v - (1 # 2) * max_val)) (firstn max_ind target)) ;;
  t <- Numpy.getitem time half_idx ;;
  Ok [t].

(** Lines 498-508: what is reported from the list of delays. *)
Definition report (ign_delays : list Q) : Delays :=
  {| simulated_ignition_delay :=
       if 0 <? length ign_delays then Seconds (last ign_delays 0%Q)
       else Seconds 0%Q;
     simulated_first_stage_delay :=
       if 1 <? length ign_delays then Seconds (hd 0%Q ign_delays)
       else NaN |}.

Definition process_results (table : list Row) (ignition_target : IgnitionTarget)
    (ignition_type : string) (compression_time : option Q) : result Delays :=
  let time := map time table in
  target <- target_column table ignition_target ;;
  ign_delays <-
    (if String.eqb ignition_type "max" || String.eqb ignition_type "d/dt max" then
       ign_delays_max ignition_type time target compression_time
     else if String.eqb ignition_type "1/2 max" then
       ign_delays_half_max time target
     else Raise NameError) ;;
  Ok (report ign_delays).

End ProcessResults.

(** Modelled from the spec: [detect_peaks] ([pyteck/detect_peaks.py]) is
    not among the sources; the spec describes it as returning the indices
    of the local maxima of a signal, those exceeding their immediate
    neighbours.  The properties below take the detector as a parameter;
    this one, which keeps an index whose sample exceeds the one before it
    and is not exceeded by the one after it, serves in the concrete runs. *)
Definition local_maxima (x : list Q) : list nat :=
  filter (fun i => Numpy.Qlt_bool (Numpy.at_ x (i - 1)) (Numpy.at_ x i)
                   && Qle_bool (Numpy.at_ x (i + 1)) (Numpy.at_ x i))
         (seq 1 (length x - 2)).

(** The candidate names of a label as the resolver tries them: the label,
    its lower-case form, and for a label ending in ['*'] the label without
    the marker and its lower-case form. *)
Definition ends_with_star (spec : string) : bool :=
  match last_char spec with
  | Ok c => Ascii.eqb c "*"%char
  | Raise _ => false
  end.

Definition candidates (spec : string) : list string :=
  [spec; lower spec]
  ++ (if ends_with_star spec then [drop_last spec; lower (drop_last spec)] else []).

(** A species the mechanism knows: the lookup returns an index. *)
Definition known (species_index : string -> result nat) (sp : string) : Prop :=
  exists i, species_index sp = Ok i.

(** A small mechanism. *)
Definition h2_o2_mechanism : list string := ["H2"; "O2"; "OH"; "H2O"]%string.

(** A volume history of a compression followed by a constant volume, and
    the profile built from it. *)
Definition compression_history : VolumeHistory :=
  {| vh_time := [0; 1; 2; 4; 5]%Q; vh_volume := [4; 3; 2; 2; 2]%Q |}.

Definition compression_profile : VolumeProfile :=
  match VolumeProfile_init compression_history with
  | Ok p => p
  | Raise _ => {| times := []; velocity := [] |}
  end.

(** ** Concrete trajectories *)

(** A row with the given time and pressure. *)
Definition row_of (t p : Q) : Row :=
  {| time := t; temperature := 300; pressure := p; volume := 1;
     mass_fractions := [p] |}.

(** A pressure trace with a weak early peak (index 1) and the main peak
    (index 4). *)
Definition two_stage_table : list Row :=
  [row_of 0 1; row_of 1 2; row_of 2 1; row_of 3 1; row_of 4 5; row_of 5 2;
   row_of 6 2].

(** A trace with one peak (index 2). *)
Definition one_stage_table : list Row :=
  [row_of 0 1; row_of 1 3; row_of 2 10; row_of 3 4; row_of 4 4].

(** A trace that never changes: neither it nor its derivative has a peak. *)
Definition flat_table : list Row :=
  [row_of 0 1; row_of 1 1; row_of 2 1; row_of 3 1].

(** ** Notions used in the statements *)

(** [x[0] < x[1] < ...]. *)
Definition increasing (x : list Q) : Prop :=
  forall i, S i < length x -> (Numpy.at_ x i < Numpy.at_ x (S i))%Q.

(** The polynomial [a t^2 + b t + c] and its derivative. *)
Definition quadratic (a b c t : Q) : Q := (a * t * t + b * t + c)%Q.

Definition quadratic' (a b t : Q) : Q := (2 * a * t + b)%Q.

(** The slope at [t] of the parabola through [(x0,y0)], [(x1,y1)],
    [(x2,y2)].  At [t = x1] it is the second-order central difference, at
    [t = x0] and [t = x2] the second-order one-sided differences. *)
Definition three_point_slope (x0 x1 x2 y0 y1 y2 t : Q) : Q :=
  (y0 * (2 * t - x1 - x2) / ((x0 - x1) * (x0 - x2))
   + y1 * (2 * t - x0 - x2) / ((x1 - x0) * (x1 - x2))
   + y2 * (2 * t - x0 - x1) / ((x2 - x0) * (x2 - x1)))%Q.

(** The straight line through [(x0,y0)] and [(x1,y1)], at [t]. *)
Definition lerp (x0 x1 y0 y1 t : Q) : Q :=
  (y0 + (y1 - y0) / (x1 - x0) * (t - x0))%Q.

(** A peak index that counts as an ignition event: at or before the
    largest peak, and later than the compression time. *)
Definition qualifies (time : list Q) (max_ind : nat) (time_comp : Q) (i : nat) : bool :=
  (i <=? max_ind) && Numpy.Qlt_bool 0 (Numpy.at_ time i - time_comp).

(** [r] has the end time as its time, and each of its fields is the value
    at the end time of the straight line from the field of [prev] to the
    field of [now]: the formula [numpy.interp] evaluates between two
    samples. *)
Definition interpolates (time_end : Q) (prev now r : Row) : Prop :=
  let line a b := lerp (time prev) (time now) a b time_end in
  time r = time_end /\
  (temperature r == line (temperature prev) (temperature now))%Q /\
  (pressure r == line (pressure prev) (pressure now))%Q /\
  (volume r == line (volume prev) (volume now))%Q /\
  length (mass_fractions r) = length (mass_fractions now) /\
  forall i, i < length (mass_fractions now) ->
    (Numpy.at_ (mass_fractions r) i
     == line (Numpy.at_ (mass_fractions prev) i) (Numpy.at_ (mass_fractions now) i))%Q.

(** ** [Simulation.setup_case], the wall and the step cap (lines 222-307) *)

(** [numpy.min]: the smallest entry, a [ValueError] on the empty array. *)
Definition numpy_min (a : list Q) : result Q :=
  match a with
  | [] => Raise ValueError
  | v :: a' => Ok (fold_left (fun m w => if Numpy.Qlt_bool w m then w else m) a' v)
  end.

(** The [velocity] argument given to [ct.Wall]: the constant 0, or a
    profile object. *)
Inductive WallVelocity : Type :=
| AtRest
| Moving (profile : VolumeProfile).

(** What lines 255-307 leave behind: the wall, when one was created, and
    the cap given to [set_max_time_step], when one was set. *)
Record Reactor : Type := {
  wall : option WallVelocity;
  max_time_step : option Q
}.

(** Lines 222-223 and 255-307: the end time, the wall and the cap on the
    step.  The composition (lines 231-250) is set before and is not part
    of this function.  [ignition_delay] is the experimental delay in
    seconds, [pressure] the initial pressure in pascal; the two density
    arguments are the thermodynamic collaborator of
    [create_volume_history], for the gas at the initial state. *)
Definition setup_reactor (density_at_SP : Q -> Q) (initial_density : Q)
    (apparatus : string) (ignition_delay pressure : Q)
    (pressure_rise : option Q) (volume_history : option VolumeHistory)
  : result Reactor :=
  let time_end := (100 * ignition_delay)%Q in
  w <- (if String.eqb apparatus "shock tube" then
          match pressure_rise with
          | None => Ok (Some AtRest)
          | Some rise =>
              p <- PressureRiseProfile_init density_at_SP initial_density
                     pressure rise time_end ;;
              Ok (Some (Moving p))
          end
        else if String.eqb apparatus "rapid compression machine" then
          match volume_history with
          | None => Ok (Some AtRest)
          | Some vh => p <- VolumeProfile_init vh ;; Ok (Some (Moving p))
          end
        else Ok None) ;;
  cap <- (match volume_history with
          | None => Ok None
          | Some vh => min_time <- numpy_min (Numpy.diff (vh_time vh)) ;; Ok (Some min_time)
          end) ;;
  Ok {| wall := w; max_time_step := cap |}.

(** ** Further notions used in the statements *)

(** Every successful step of the integrator advances its time. *)
Definition advancing {N : Type} `{ReactorNet N} : Prop :=
  forall net net' : N, step net = Ok net' ->
    (time (observe net) < time (observe net'))%Q.

(** An integrator that advances its time by 1 s per step and fails after
    a given number of steps. *)
Record Fragile : Type := {
  steps_left : nat;
  clock : Q
}.

#[global] Instance Fragile_ReactorNet : ReactorNet Fragile := {
  step s :=
    match steps_left s with
    | O => Raise CanteraError
    | S n => Ok {| steps_left := n; clock := (clock s + 1)%Q |}
    end;
  observe s := row_of (clock s) 1
}.

(** The table written by the run of [two_steps] to the end time 2 s: the
    initial row, the row of the first step, and the interpolated row. *)
Definition two_steps_table : list Row :=
  [ {| time := 0; temperature := 1000; pressure := 1; volume := 1;
       mass_fractions := [1; 0]%Q |};
    {| time := 1; temperature := 1100; pressure := 2; volume := 1;
       mass_fractions := [(3 # 4); (1 # 4)]%Q |};
    {| time := 2; temperature := 3600 # 3; pressure := 9 # 3; volume := 3 # 3;
       mass_fractions := [(24 # 48); (24 # 48)]%Q |} ].

(** A pressure trace that rises to a plateau without a local maximum; its
    derivative has one. *)
Definition sigmoid_table : list Row :=
  [row_of 0 1; row_of 1 2; row_of 2 4; row_of 3 8; row_of 4 10; row_of 5 11;
   row_of 6 12].

(* ================================================================== *)
(** * Part II. Properties *)
(* ================================================================== *)

(** ** Comparisons and the error monad *)

Lemma Qlt_bool_iff (x y : Q) : Numpy.Qlt_bool x y = true <-> (x < y)%Q.
Proof.
  unfold Numpy.Qlt_bool. rewrite negb_true_iff.
  split; intro Hc.
  - apply Qnot_le_lt. intro Hle. apply Qle_bool_iff in Hle. congruence.
  - destruct (Qle_bool y x) eqn:E; [|reflexivity].
    apply Qle_bool_iff in E. exfalso. apply (Qlt_not_le _ _ Hc E).
Qed.

Lemma Qlt_bool_false_iff (x y : Q) : Numpy.Qlt_bool x y = false <-> (y <= x)%Q.
Proof.
  unfold Numpy.Qlt_bool. rewrite negb_false_iff. apply Qle_bool_iff.
Qed.

Lemma Qle_bool_false_iff (x y : Q) : Qle_bool x y = false <-> (y < x)%Q.
Proof.
  split; intro Hc.
  - apply Qnot_le_lt. intro Hle. apply Qle_bool_iff in Hle. congruence.
  - destruct (Qle_bool x y) eqn:E; [|reflexivity].
    apply Qle_bool_iff in E. exfalso. apply (Qlt_not_le _ _ Hc E).
Qed.

(** ** Arrays *)

Lemma at_map_seq (f : nat -> Q) (m k : nat) :
  k < m -> Numpy.at_ (map f (seq 0 m)) k = f k.
Proof.
  intro Hk. unfold Numpy.at_.
  rewrite (nth_indep _ 0%Q (f 0)) by (rewrite length_map, length_seq; exact Hk).
  rewrite (map_nth f (seq 0 m) 0 k), seq_nth by exact Hk. reflexivity.
Qed.

Lemma at_map (f : Q -> Q) (x : list Q) (i : nat) :
  i < length x -> Numpy.at_ (map f x) i = f (Numpy.at_ x i).
Proof.
  intro Hi. unfold Numpy.at_.
  rewrite (nth_indep _ 0%Q (f 0%Q)) by (rewrite length_map; exact Hi).
  apply map_nth.
Qed.

Lemma at_diff (x : list Q) (k : nat) :
  S k < length x -> Numpy.at_ (Numpy.diff x) k = (Numpy.at_ x (S k) - Numpy.at_ x k)%Q.
Proof.
  intro Hk. unfold Numpy.diff. rewrite at_map_seq by lia. reflexivity.
Qed.

Lemma length_diff (x : list Q) : length (Numpy.diff x) = length x - 1.
Proof. unfold Numpy.diff. now rewrite length_map, length_seq. Qed.

(** When numpy finds the spacing uniform, every spacing equals the first. *)
Lemma uniform_spacing_at (x : list Q) (k : nat) :
  forallb (fun d => Qeq_bool d (Numpy.at_ (Numpy.diff x) 0)) (Numpy.diff x) = true ->
  S k < length x ->
  (Numpy.at_ x (S k) - Numpy.at_ x k == Numpy.at_ x 1 - Numpy.at_ x 0)%Q.
Proof.
  intros Hu Hk.
  rewrite forallb_forall in Hu.
  assert (Hin : In (Numpy.at_ (Numpy.diff x) k) (Numpy.diff x)).
  { apply nth_In. rewrite length_diff. lia. }
  apply Hu, Qeq_bool_iff in Hin.
  rewrite !at_diff in Hin by lia. exact Hin.
Qed.

(** ** The difference formulas of [numpy.gradient] *)

Section Differences.

Local Open Scope Q_scope.

Variables x0 x1 x2 y0 y1 y2 : Q.
Hypothesis H01 : x0 < x1.
Hypothesis H12 : x1 < x2.

Lemma interior_nonuniform :
  - (x2 - x1) / ((x1 - x0) * ((x1 - x0) + (x2 - x1))) * y0
  + ((x2 - x1) - (x1 - x0)) / ((x1 - x0) * (x2 - x1)) * y1
  + (x1 - x0) / ((x2 - x1) * ((x1 - x0) + (x2 - x1))) * y2
  == three_point_slope x0 x1 x2 y0 y1 y2 x1.
Proof.
  unfold three_point_slope. field. repeat split; lra.
Qed.

Lemma left_edge_nonuniform :
  - (2 * (x1 - x0) + (x2 - x1)) / ((x1 - x0) * ((x1 - x0) + (x2 - x1))) * y0
  + ((x1 - x0) + (x2 - x1)) / ((x1 - x0) * (x2 - x1)) * y1
  + - (x1 - x0) / ((x2 - x1) * ((x1 - x0) + (x2 - x1))) * y2
  == three_point_slope x0 x1 x2 y0 y1 y2 x0.
Proof.
  unfold three_point_slope. field. repeat split; lra.
Qed.

Lemma right_edge_nonuniform :
  (x2 - x1) / ((x1 - x0) * ((x1 - x0) + (x2 - x1))) * y0
  + - ((x2 - x1) + (x1 - x0)) / ((x1 - x0) * (x2 - x1)) * y1
  + (2 * (x2 - x1) + (x1 - x0)) / ((x2 - x1) * ((x1 - x0) + (x2 - x1))) * y2
  == three_point_slope x0 x1 x2 y0 y1 y2 x2.
Proof.
  unfold three_point_slope. field. repeat split; lra.
Qed.

Variable h : Q.
Hypothesis Hh1 : x1 - x0 == h.
Hypothesis Hh2 : x2 - x1 == h.

Lemma interior_uniform :
  (y2 - y0) / (2 * h) == three_point_slope x0 x1 x2 y0 y1 y2 x1.
Proof.
  rewrite <- interior_nonuniform.
  rewrite Hh1, Hh2. field. lra.
Qed.

Lemma left_edge_uniform :
  - (3 # 2) / h * y0 + 2 / h * y1 + - (1 # 2) / h * y2
  == three_point_slope x0 x1 x2 y0 y1 y2 x0.
Proof.
  rewrite <- left_edge_nonuniform.
  rewrite Hh1, Hh2. field. lra.
Qed.

Lemma right_edge_uniform :
  (1 # 2) / h * y0 + - (2) / h * y1 + (3 # 2) / h * y2
  == three_point_slope x0 x1 x2 y0 y1 y2 x2.
Proof.
  rewrite <- right_edge_nonuniform.
  rewrite Hh1, Hh2. field. lra.
Qed.

(** The three-point slope is exact on a quadratic, wherever it is taken. *)
Lemma three_point_slope_quadratic (a b c t : Q) :
  three_point_slope x0 x1 x2 (quadratic a b c x0) (quadratic a b c x1)
                    (quadratic a b c x2) t
  == quadratic' a b t.
Proof.
  unfold three_point_slope, quadratic, quadratic'. field. repeat split; lra.
Qed.

End Differences.

(** ** [first_derivative] *)

Lemma at_cons_S (v : Q) (l : list Q) (i : nat) :
  Numpy.at_ (v :: l) (S i) = Numpy.at_ l i.
Proof. reflexivity. Qed.

Lemma at_app_l (l l' : list Q) (i : nat) :
  i < length l -> Numpy.at_ (l ++ l') i = Numpy.at_ l i.
Proof. intro Hi. unfold Numpy.at_. now apply app_nth1. Qed.

Lemma at_app_last (l : list Q) (v : Q) :
  Numpy.at_ (l ++ [v]) (length l) = v.
Proof. unfold Numpy.at_. rewrite app_nth2, Nat.sub_diag by lia. reflexivity. Qed.

Lemma at_cons_app_last (v w : Q) (l : list Q) (i : nat) :
  i = S (length l) -> Numpy.at_ (v :: l ++ [w]) i = w.
Proof. intros ->. rewrite at_cons_S. apply at_app_last. Qed.

(** What [numpy.gradient] returns on increasing coordinates: at every
    sample the three-point slope, centred in the interior and one-sided at
    the two ends. *)
Lemma gradient_three_point (f x : list Q) :
  length f = length x -> 3 <= length x -> increasing x ->
  exists d,
    Numpy.gradient f x = Ok d /\
    length d = length x /\
    (Numpy.at_ d 0 ==
       three_point_slope (Numpy.at_ x 0) (Numpy.at_ x 1) (Numpy.at_ x 2)
                         (Numpy.at_ f 0) (Numpy.at_ f 1) (Numpy.at_ f 2)
                         (Numpy.at_ x 0))%Q /\
    (forall k, k + 2 < length x ->
       (Numpy.at_ d (k + 1) ==
          three_point_slope (Numpy.at_ x k) (Numpy.at_ x (k + 1)) (Numpy.at_ x (k + 2))
                            (Numpy.at_ f k) (Numpy.at_ f (k + 1)) (Numpy.at_ f (k + 2))
                            (Numpy.at_ x (k + 1)))%Q) /\
    (Numpy.at_ d (length x - 1) ==
       three_point_slope (Numpy.at_ x (length x - 3)) (Numpy.at_ x (length x - 2))
                         (Numpy.at_ x (length x - 1))
                         (Numpy.at_ f (length x - 3)) (Numpy.at_ f (length x - 2))
                         (Numpy.at_ f (length x - 1))
                         (Numpy.at_ x (length x - 1)))%Q.
Proof.
  intros Hlen Hn Hinc.
  assert (Hadj : forall k, k + 2 < length x ->
            (Numpy.at_ x k < Numpy.at_ x (k + 1))%Q /\
            (Numpy.at_ x (k + 1) < Numpy.at_ x (k + 2))%Q).
  { intros k Hk. split.
    - replace (k + 1) with (S k) by lia. apply Hinc. lia.
    - replace (k + 2) with (S (k + 1)) by lia. apply Hinc. lia. }
  unfold Numpy.gradient.
  rewrite Hlen, Nat.eqb_refl. cbn [negb].
  destruct (Nat.ltb_spec (length x) 2) as [Hlt|_]; [lia|].
  destruct (Nat.ltb_spec (length x) 3) as [Hlt|_]; [lia|].
  eexists. split; [reflexivity|].
  set (u := forallb _ _).
  assert (Hu : u = true -> forall k, S k < length x ->
            (Numpy.at_ x (S k) - Numpy.at_ x k == Numpy.at_ (Numpy.diff x) 0)%Q).
  { intros E k Hk. rewrite at_diff by lia. now apply uniform_spacing_at. }
  split; [|split; [|split]].
  - cbn [length]. rewrite length_app, length_map, length_seq. cbn [length]. lia.
  - unfold Numpy.at_ at 1. cbn [nth].
    destruct (Hadj 0) as [Ha Hb]; [lia|]. cbn [Nat.add] in Ha, Hb.
    destruct u eqn:E.
    + apply left_edge_uniform; try assumption.
      * rewrite at_diff by lia. reflexivity.
      * now apply Hu; [reflexivity | lia].
    + rewrite !at_diff by lia. now apply left_edge_nonuniform.
  - intros k Hk.
    replace (k + 1) with (S k) at 1 by lia. rewrite at_cons_S.
    rewrite at_app_l by (rewrite length_map, length_seq; lia).
    rewrite at_map_seq by lia.
    destruct (Hadj k Hk) as [Ha Hb].
    destruct u eqn:E.
    + apply interior_uniform; try assumption.
      * replace (k + 1) with (S k) by lia. apply Hu; [reflexivity | lia].
      * replace (k + 2) with (S (k + 1)) by lia. apply Hu; [reflexivity | lia].
    + rewrite !at_diff by lia.
      replace (S (k + 1)) with (k + 2) by lia. replace (S k) with (k + 1) by lia.
      now apply interior_nonuniform.
  - rewrite at_cons_app_last by (rewrite length_map, length_seq; lia).
    destruct (Hadj (length x - 3)) as [Ha Hb]; [lia|].
    replace (length x - 3 + 1) with (length x - 2) in Ha, Hb by lia.
    replace (length x - 3 + 2) with (length x - 1) in Hb by lia.
    destruct u eqn:E.
    + apply right_edge_uniform; try assumption.
      * replace (length x - 2) with (S (length x - 3)) at 1 by lia.
        apply Hu; [reflexivity | lia].
      * replace (length x - 1) with (S (length x - 2)) at 1 by lia.
        apply Hu; [reflexivity | lia].
    + rewrite !at_diff by lia.
      replace (S (length x - 3)) with (length x - 2) by lia.
      replace (S (length x - 2)) with (length x - 1) by lia.
      now apply right_edge_nonuniform.
Qed.

(** C10, amended.  In arithmetic without rounding, on a polynomial of
    degree at most two sampled at three or more increasing points with any
    spacing, the formulas of [first_derivative] give at every sample the
    derivative of the polynomial; the entry at an interior sample is the
    central three-point difference, the entries at the two ends are the
    one-sided three-point differences. *)
Theorem first_derivative_exact_on_quadratics (a b c : Q) (x : list Q) :
  3 <= length x -> increasing x ->
  let y := map (quadratic a b c) x in
  exists d,
    first_derivative x y = Ok d /\
    length d = length x /\
    (forall i, i < length x ->
       (Numpy.at_ d i == quadratic' a b (Numpy.at_ x i))%Q) /\
    (Numpy.at_ d 0 ==
       three_point_slope (Numpy.at_ x 0) (Numpy.at_ x 1) (Numpy.at_ x 2)
                         (Numpy.at_ y 0) (Numpy.at_ y 1) (Numpy.at_ y 2)
                         (Numpy.at_ x 0))%Q /\
    (forall i, 0 < i -> i + 1 < length x ->
       (Numpy.at_ d i ==
          three_point_slope (Numpy.at_ x (i - 1)) (Numpy.at_ x i) (Numpy.at_ x (i + 1))
                            (Numpy.at_ y (i - 1)) (Numpy.at_ y i) (Numpy.at_ y (i + 1))
                            (Numpy.at_ x i))%Q) /\
    (Numpy.at_ d (length x - 1) ==
       three_point_slope (Numpy.at_ x (length x - 3)) (Numpy.at_ x (length x - 2))
                         (Numpy.at_ x (length x - 1))
                         (Numpy.at_ y (length x - 3)) (Numpy.at_ y (length x - 2))
                         (Numpy.at_ y (length x - 1))
                         (Numpy.at_ x (length x - 1)))%Q.
Proof.
  intros Hn Hinc y.
  assert (Hadj : forall k, k + 2 < length x ->
            (Numpy.at_ x k < Numpy.at_ x (k + 1))%Q /\
            (Numpy.at_ x (k + 1) < Numpy.at_ x (k + 2))%Q).
  { intros k Hk. split.
    - replace (k + 1) with (S k) by lia. apply Hinc. lia.
    - replace (k + 2) with (S (k + 1)) by lia. apply Hinc. lia. }
  destruct (@gradient_three_point y x) as (d & Hd & Hlen & H0 & Hmid & Hlast);
    [unfold y; apply length_map | exact Hn | exact Hinc |].
  assert (Hmid' : forall i, 0 < i -> i + 1 < length x ->
     (Numpy.at_ d i ==
        three_point_slope (Numpy.at_ x (i - 1)) (Numpy.at_ x i) (Numpy.at_ x (i + 1))
                          (Numpy.at_ y (i - 1)) (Numpy.at_ y i) (Numpy.at_ y (i + 1))
                          (Numpy.at_ x i))%Q).
  { intros i Hi0 Hi1. specialize (Hmid (i - 1)).
    replace (i - 1 + 1) with i in Hmid by lia.
    replace (i - 1 + 2) with (i + 1) in Hmid by lia.
    apply Hmid. lia. }
  exists d. split; [exact Hd|]. split; [exact Hlen|].
  split; [|split; [exact H0|split; [exact Hmid'|exact Hlast]]].
  intros i Hi.
  destruct (Nat.eq_dec i 0) as [->|Hne0].
  - rewrite H0. unfold y. rewrite !at_map by lia.
    destruct (Hadj 0) as [Ha Hb]; [lia|].
    now apply three_point_slope_quadratic.
  - destruct (Nat.eq_dec i (length x - 1)) as [->|Hne1].
    + rewrite Hlast. unfold y. rewrite !at_map by lia.
      destruct (Hadj (length x - 3)) as [Ha Hb]; [lia|].
      replace (length x - 3 + 1) with (length x - 2) in Ha, Hb by lia.
      replace (length x - 3 + 2) with (length x - 1) in Hb by lia.
      now apply three_point_slope_quadratic.
    + rewrite Hmid' by lia. unfold y. rewrite !at_map by lia.
      destruct (Hadj (i - 1)) as [Ha Hb]; [lia|].
      replace (i - 1 + 1) with i in Ha, Hb by lia.
      replace (i - 1 + 2) with (i + 1) in Hb by lia.
      now apply three_point_slope_quadratic.
Qed.

Lemma increasing_0_1_3 : increasing [0; 1; 3]%Q.
Proof.
  intros i Hi. cbn [length] in Hi.
  destruct i as [|[|i]]; [reflexivity | reflexivity | lia].
Qed.

Lemma first_derivative_exact_on_quadratics_witness :
  let x := [0; 1; 3]%Q in
  let y := map (quadratic 1 2 3) x in
  exists d,
    first_derivative x y = Ok d /\
    length d = length x /\
    (forall i, i < length x ->
       (Numpy.at_ d i == quadratic' 1 2 (Numpy.at_ x i))%Q) /\
    (Numpy.at_ d 0 ==
       three_point_slope (Numpy.at_ x 0) (Numpy.at_ x 1) (Numpy.at_ x 2)
                         (Numpy.at_ y 0) (Numpy.at_ y 1) (Numpy.at_ y 2)
                         (Numpy.at_ x 0))%Q /\
    (forall i, 0 < i -> i + 1 < length x ->
       (Numpy.at_ d i ==
          three_point_slope (Numpy.at_ x (i - 1)) (Numpy.at_ x i) (Numpy.at_ x (i + 1))
                            (Numpy.at_ y (i - 1)) (Numpy.at_ y i) (Numpy.at_ y (i + 1))
                            (Numpy.at_ x i))%Q) /\
    (Numpy.at_ d (length x - 1) ==
       three_point_slope (Numpy.at_ x (length x - 3)) (Numpy.at_ x (length x - 2))
                         (Numpy.at_ x (length x - 1))
                         (Numpy.at_ y (length x - 3)) (Numpy.at_ y (length x - 2))
                         (Numpy.at_ y (length x - 1))
                         (Numpy.at_ x (length x - 1)))%Q.
Proof.
  apply (@first_derivative_exact_on_quadratics 1 2 3 [0; 1; 3]%Q).
  - cbn [length]. lia.
  - exact increasing_0_1_3.
Defined.

(** C10, as stated, fails in binary64.  The samples 5, 7, 8 at 0, 1, 3 are
    those of the polynomial [-t^2/2 + 5t/2 + 5], whose derivative at the
    interior sample [t = 1] is 3/2.  All these numbers are binary64
    numbers; the central three-point formula, evaluated in binary64,
    returns there 1.5000000000000002, the binary64 number next above
    1.5. *)
Lemma first_derivative_not_exact_in_binary64 :
  ((quadratic (-1 # 2) (5 # 2) 5 0 == 5)%Q /\
   (quadratic (-1 # 2) (5 # 2) 5 1 == 7)%Q /\
   (quadratic (-1 # 2) (5 # 2) 5 3 == 8)%Q /\
   (quadratic' (-1 # 2) (5 # 2) 1 == 3 # 2)%Q) /\
  exists d0 d2,
    Float64.first_derivative [0; 1; 3]%float [5; 7; 8]%float
    = Ok [d0; 0x1.8000000000001p+0; d2]%float /\
    PrimFloat.eqb 0x1.8000000000001p+0 1.5 = false /\
    PrimFloat.ltb 1.5 0x1.8000000000001p+0 = true.
Proof.
  split; [repeat split|].
  eexists. eexists. split; [vm_compute; reflexivity|].
  split; reflexivity.
Qed.

Lemma gradient_length (f x d : list Q) :
  Numpy.gradient f x = Ok d -> length d = length f.
Proof.
  unfold Numpy.gradient.
  destruct (negb (Nat.eqb (length x) (length f))); [discriminate|].
  destruct (Nat.ltb_spec (length f) 2) as [|_]; [discriminate|].
  destruct (Nat.ltb_spec (length f) 3) as [|Hn]; [discriminate|].
  intros [= <-]. cbn [length].
  rewrite length_app, length_map, length_seq. cbn [length]. lia.
Qed.

Lemma gradient_total (f x : list Q) :
  length x = length f -> 3 <= length f -> exists d, Numpy.gradient f x = Ok d.
Proof.
  intros Hlen Hn. unfold Numpy.gradient.
  rewrite Hlen, Nat.eqb_refl. cbn [negb].
  destruct (Nat.ltb_spec (length f) 2) as [|_]; [lia|].
  destruct (Nat.ltb_spec (length f) 3) as [|_]; [lia|].
  eexists. reflexivity.
Qed.

(** ** Index arrays and masks *)

Lemma mapM_length {A B : Type} (f : A -> result B) (l : list A) (bs : list B) :
  mapM f l = Ok bs -> length bs = length l.
Proof.
  revert bs. induction l as [|a l IH]; cbn [mapM]; intros bs.
  - now intros [= <-].
  - destruct (f a) as [b|e]; cbn [bind]; [|discriminate].
    destruct (mapM f l) as [bs'|e]; cbn [bind]; [|discriminate].
    intros [= <-]. cbn [length]. f_equal. now apply IH.
Qed.

Lemma getitem_in_range {A : Type} (a : list A) (i : nat) (d : A) :
  i < length a -> Numpy.getitem a i = Ok (nth i a d).
Proof.
  intro Hi. unfold Numpy.getitem.
  now rewrite (nth_error_nth' a d Hi).
Qed.

Lemma take_in_range {A : Type} (a : list A) (idx : list nat) (d : A) :
  Forall (fun i => i < length a) idx ->
  Numpy.take a idx = Ok (map (fun i => nth i a d) idx).
Proof.
  unfold Numpy.take.
  induction 1 as [|i idx Hi _ IH]; cbn [mapM map]; [reflexivity|].
  now rewrite (getitem_in_range a d Hi), IH.
Qed.

Lemma compress_map_filter {A : Type} (p : A -> bool) (l : list A) :
  Numpy.compress (map p l) l = filter p l.
Proof.
  induction l as [|a l IH]; cbn [map Numpy.compress filter]; [reflexivity|].
  now rewrite IH.
Qed.

Lemma bool_index_map {A : Type} (p : A -> bool) (l : list A) :
  Numpy.bool_index l (map p l) = Ok (filter p l).
Proof.
  unfold Numpy.bool_index.
  now rewrite length_map, Nat.eqb_refl, compress_map_filter.
Qed.

(** Positions read off a mask over a slice [sel] pick, in the whole array,
    the entries the mask picks in the slice, when the slice starts the
    array after [pre]. *)
Lemma take_where_from {A : Type} (mask : list bool) :
  forall (pre sel rest : list A),
    length mask = length sel ->
    Numpy.take (pre ++ sel ++ rest) (Numpy.where_from (length pre) mask)
    = Ok (Numpy.compress mask sel).
Proof.
  unfold Numpy.take.
  induction mask as [|b mask IH]; intros pre sel rest Hlen.
  - reflexivity.
  - destruct sel as [|s sel]; [discriminate|].
    cbn [length] in Hlen. injection Hlen as Hlen.
    assert (Hnext : mapM (Numpy.getitem (pre ++ (s :: sel) ++ rest))
                         (Numpy.where_from (S (length pre)) mask)
                    = Ok (Numpy.compress mask sel)).
    { specialize (IH (pre ++ [s]) sel rest Hlen).
      rewrite <- app_assoc in IH. cbn [app] in IH.
      rewrite length_app in IH. cbn [length] in IH.
      replace (length pre + 1) with (S (length pre)) in IH by lia.
      exact IH. }
    cbn [Numpy.where_from Numpy.compress].
    destruct b; [|exact Hnext].
    cbn [mapM]. rewrite Hnext.
    unfold Numpy.getitem at 1.
    rewrite nth_error_app2, Nat.sub_diag by lia.
    reflexivity.
Qed.

Lemma take_where_prefix {A : Type} (mask : list bool) (sel rest : list A) :
  length mask = length sel ->
  Numpy.take (sel ++ rest) (Numpy.where_ mask) = Ok (Numpy.compress mask sel).
Proof.
  intro Hlen. exact (take_where_from mask [] sel rest Hlen).
Qed.

(** In an increasing index array the entries up to a bound come first. *)
Lemma sorted_filter_le_prefix (m : nat) (ind : list nat) :
  StronglySorted lt ind ->
  exists rest, ind = filter (fun i => i <=? m) ind ++ rest.
Proof.
  induction 1 as [|a ind Hs IH Ha]; cbn [filter].
  - now exists [].
  - destruct (Nat.leb_spec a m) as [Hle|Hgt].
    + destruct IH as [rest IH]. exists rest. cbn [app]. now f_equal.
    + exists (a :: ind).
      assert (Hnone : filter (fun i => i <=? m) ind = []).
      { clear IH Hs. induction Ha as [|i ind Hi _ IHa]; cbn [filter]; [reflexivity|].
        destruct (Nat.leb_spec i m); [lia | exact IHa]. }
      now rewrite Hnone.
Qed.

Lemma filter_filter_andb {A : Type} (p q : A -> bool) (l : list A) :
  filter q (filter p l) = filter (fun a => p a && q a) l.
Proof.
  induction l as [|a l IH]; cbn [filter]; [reflexivity|].
  destruct (p a); cbn [filter andb]; [|exact IH].
  destruct (q a); now rewrite IH.
Qed.

(** ** [numpy.argmax], [numpy.argmin], [numpy.max] *)

Lemma argmax_from_spec (a : list Q) :
  forall (pre : list Q) (bi : nat) (b : Q) (i : nat),
    length pre = i -> bi < i -> nth bi pre 0%Q = b ->
    (forall j, j < i -> (nth j pre 0 <= b)%Q) ->
    (forall j, j < bi -> (nth j pre 0 < b)%Q) ->
    let k := Numpy.argmax_from bi b i a in
    let l := pre ++ a in
    k < length l /\
    (forall j, j < length l -> (nth j l 0 <= nth k l 0)%Q) /\
    (forall j, j < k -> (nth j l 0 < nth k l 0)%Q).
Proof.
  induction a as [|v a IH]; intros pre bi b i Hlen Hbi Hb Hle Hlt; cbn zeta.
  - cbn [Numpy.argmax_from]. rewrite app_nil_r. rewrite Hb.
    repeat split; [lia | intros j Hj; apply Hle; lia | exact Hlt].
  - cbn [Numpy.argmax_from].
    replace (pre ++ v :: a) with ((pre ++ [v]) ++ a) by (now rewrite <- app_assoc).
    assert (Hlen' : length (pre ++ [v]) = S i)
      by (rewrite length_app; cbn [length]; lia).
    assert (Hv : nth i (pre ++ [v]) 0%Q = v)
      by (rewrite app_nth2, Hlen, Nat.sub_diag by lia; reflexivity).
    destruct (Numpy.Qlt_bool b v) eqn:E.
    + apply Qlt_bool_iff in E.
      apply IH; [exact Hlen' | lia | exact Hv | |].
      * intros j Hj. destruct (Nat.eq_dec j i) as [->|Hne].
        -- rewrite Hv. apply Qle_refl.
        -- rewrite app_nth1 by lia. apply Qlt_le_weak.
           apply Qle_lt_trans with b; [apply Hle; lia | exact E].
      * intros j Hj. rewrite app_nth1 by lia.
        apply Qle_lt_trans with b; [apply Hle; lia | exact E].
    + apply Qlt_bool_false_iff in E.
      apply IH; [exact Hlen' | lia | | |].
      * rewrite app_nth1 by lia. exact Hb.
      * intros j Hj. destruct (Nat.eq_dec j i) as [->|Hne].
        -- rewrite Hv. exact E.
        -- rewrite app_nth1 by lia. apply Hle. lia.
      * intros j Hj. rewrite app_nth1 by lia. now apply Hlt.
Qed.

(** [numpy.argmax] of a non-empty array: a position of the largest entry,
    and the first such position. *)
Lemma argmax_spec (l : list Q) :
  l <> [] ->
  exists k,
    Numpy.argmax l = Ok k /\ k < length l /\
    (forall j, j < length l -> (Numpy.at_ l j <= Numpy.at_ l k)%Q) /\
    (forall j, j < k -> (Numpy.at_ l j < Numpy.at_ l k)%Q).
Proof.
  destruct l as [|v a]; [congruence|]. intros _.
  exists (Numpy.argmax_from 0 v 1 a). split; [reflexivity|].
  apply (@argmax_from_spec a [v] 0 v 1); try reflexivity; try lia.
  - intros j Hj. replace j with 0 by lia. apply Qle_refl.
Qed.

Lemma argmin_from_opp (a : list Q) :
  forall bi b i,
    Numpy.argmin_from bi b i a = Numpy.argmax_from bi (- b) i (map Qopp a).
Proof.
  induction a as [|v a IH]; intros bi b i; cbn [Numpy.argmin_from Numpy.argmax_from map].
  - reflexivity.
  - assert (E : Numpy.Qlt_bool v b = Numpy.Qlt_bool (- b) (- v)).
    { destruct (Numpy.Qlt_bool v b) eqn:E1; symmetry.
      - apply Qlt_bool_iff. apply Qlt_bool_iff in E1. lra.
      - apply Qlt_bool_false_iff. apply Qlt_bool_false_iff in E1. lra. }
    rewrite <- E. destruct (Numpy.Qlt_bool v b); apply IH.
Qed.

(** [numpy.argmin] of a non-empty array: the first position of the
    smallest entry. *)
Lemma argmin_spec (l : list Q) :
  l <> [] ->
  exists k,
    Numpy.argmin l = Ok k /\ k < length l /\
    (forall j, j < length l -> (Numpy.at_ l k <= Numpy.at_ l j)%Q) /\
    (forall j, j < k -> (Numpy.at_ l k < Numpy.at_ l j)%Q).
Proof.
  intro Hne.
  destruct (@argmax_spec (map Qopp l)) as (k & Hk & Hlt & Hmax & Hfirst).
  { destruct l; [congruence | discriminate]. }
  rewrite length_map in Hlt, Hmax.
  exists k. split; [|split; [exact Hlt|split]].
  - destruct l as [|v a]; [congruence|].
    cbn [map Numpy.argmax] in Hk. cbn [Numpy.argmin].
    now rewrite argmin_from_opp.
  - intros j Hj. specialize (Hmax j Hj).
    rewrite !at_map in Hmax by assumption. lra.
  - intros j Hj. specialize (Hfirst j Hj).
    rewrite !at_map in Hfirst by lia. lra.
Qed.

Lemma max_fold_spec (a : list Q) :
  forall v,
    let m := fold_left (fun m w => if Numpy.Qlt_bool m w then w else m) a v in
    In m (v :: a) /\ forall w, In w (v :: a) -> (w <= m)%Q.
Proof.
  induction a as [|u a IH]; intros v; cbn zeta; cbn [fold_left].
  - split; [now left|]. intros w [<-|[]]. apply Qle_refl.
  - destruct (Numpy.Qlt_bool v u) eqn:E.
    + apply Qlt_bool_iff in E. destruct (IH u) as [Hin Hle].
      split; [now right|].
      intros w [<-|Hw]; [|now apply Hle].
      apply Qle_trans with u; [now apply Qlt_le_weak | apply Hle; now left].
    + apply Qlt_bool_false_iff in E. destruct (IH v) as [Hin Hle].
      split.
      * destruct Hin as [<-|Hin]; [now left | now right; right].
      * intros w [<-|[<-|Hw]].
        -- apply Hle. now left.
        -- apply Qle_trans with v; [exact E | apply Hle; now left].
        -- apply Hle. now right.
Qed.

(** [numpy.max] of a non-empty array: an entry no entry exceeds. *)
Lemma max_spec (l : list Q) :
  l <> [] ->
  exists m, Numpy.max l = Ok m /\ In m l /\ forall w, In w l -> (w <= m)%Q.
Proof.
  destruct l as [|v a]; [congruence|]. intros _.
  eexists. split; [reflexivity|]. apply max_fold_spec.
Qed.

(** ** Increasing arrays *)

Lemma increasing_lt (x : list Q) (i j : nat) :
  increasing x -> i < j -> j < length x -> (Numpy.at_ x i < Numpy.at_ x j)%Q.
Proof.
  intros Hinc Hij. induction Hij as [|j Hij IH]; intro Hj.
  - now apply Hinc.
  - apply Qlt_trans with (Numpy.at_ x j); [apply IH; lia | now apply Hinc].
Qed.

Lemma increasing_le (x : list Q) (i j : nat) :
  increasing x -> i <= j -> j < length x -> (Numpy.at_ x i <= Numpy.at_ x j)%Q.
Proof.
  intros Hinc Hij Hj. destruct (Nat.eq_dec i j) as [->|Hne].
  - apply Qle_refl.
  - apply Qlt_le_weak. apply increasing_lt; [exact Hinc | lia | exact Hj].
Qed.

Lemma sorted_filter (p : nat -> bool) (l : list nat) :
  StronglySorted lt l -> StronglySorted lt (filter p l).
Proof.
  induction 1 as [|a l Hs IH Ha]; cbn [filter]; [constructor|].
  destruct (p a); [|exact IH].
  constructor; [exact IH|].
  rewrite Forall_forall in *. intros i Hi.
  apply filter_In in Hi. now apply Ha.
Qed.

Lemma sorted_hd_le (l : list nat) (i : nat) :
  StronglySorted lt l -> In i l -> hd 0 l <= i.
Proof.
  intros Hs Hi. destruct l as [|a l]; [destruct Hi|].
  apply StronglySorted_inv in Hs. destruct Hs as [Hs Ha].
  cbn [hd]. destruct Hi as [<-|Hi]; [lia|].
  rewrite Forall_forall in Ha. specialize (Ha i Hi). lia.
Qed.

Lemma sorted_le_last (l : list nat) (i : nat) :
  StronglySorted lt l -> In i l -> i <= last l 0.
Proof.
  intro Hs. revert i.
  induction Hs as [|a l Hs IH Ha]; intros i Hi; [destruct Hi|].
  destruct l as [|b l'].
  - destruct Hi as [<-|[]]. cbn [last]. lia.
  - change (last (a :: b :: l') 0) with (last (b :: l') 0).
    destruct Hi as [<-|Hi]; [|now apply IH].
    rewrite Forall_forall in Ha.
    assert (a < b) by (apply Ha; now left).
    assert (b <= last (b :: l') 0) by (apply IH; now left).
    lia.
Qed.

Lemma sorted_hd_lt_last (l : list nat) :
  StronglySorted lt l -> 1 < length l -> hd 0 l < last l 0.
Proof.
  intros Hs Hlen. destruct l as [|a l]; [cbn in Hlen; lia|].
  apply StronglySorted_inv in Hs. destruct Hs as [Hs Ha].
  destruct l as [|b l']; [cbn in Hlen; lia|].
  cbn [hd]. change (last (a :: b :: l') 0) with (last (b :: l') 0).
  rewrite Forall_forall in Ha.
  assert (a < b) by (apply Ha; now left).
  assert (b <= last (b :: l') 0) by (apply sorted_le_last; [exact Hs | now left]).
  lia.
Qed.

Lemma last_in {A : Type} (l : list A) (d : A) : l <> [] -> In (last l d) l.
Proof.
  induction l as [|a l IH]; [congruence|]. intros _.
  destruct l as [|b l']; [now left|].
  right. apply IH. discriminate.
Qed.

Lemma last_map {A B : Type} (f : A -> B) (l : list A) (d : A) (e : B) :
  l <> [] -> last (map f l) e = f (last l d).
Proof.
  induction l as [|a l IH]; [congruence|]. intros _.
  destruct l as [|b l']; [reflexivity|].
  change (last (map f (a :: b :: l')) e) with (last (map f (b :: l')) e).
  change (last (a :: b :: l') d) with (last (b :: l') d).
  apply IH. discriminate.
Qed.

Lemma hd_map {A B : Type} (f : A -> B) (l : list A) (d : A) (e : B) :
  l <> [] -> hd e (map f l) = f (hd d l).
Proof. destruct l; [congruence | reflexivity]. Qed.

(** ** [process_results]: the peaks and the list of delays *)

Lemma target_column_length (table : list Row) (it : IgnitionTarget) (target : list Q) :
  target_column table it = Ok target -> length target = length table.
Proof.
  destruct it as [| |k]; cbn [target_column].
  - intros [= <-]. apply length_map.
  - intros [= <-]. apply length_map.
  - apply mapM_length.
Qed.

Lemma at_nth_map (series : list Q) (ind : list nat) (j : nat) :
  j < length ind ->
  Numpy.at_ (map (fun i => nth i series 0%Q) ind) j = Numpy.at_ series (nth j ind 0).
Proof.
  intro Hj. unfold Numpy.at_.
  rewrite (nth_indep _ 0%Q (nth 0 series 0%Q)) by (now rewrite length_map).
  apply (map_nth (fun i => nth i series 0%Q)).
Qed.

(** The largest peak: a detected peak no detected peak exceeds. *)
Lemma largest_peak_spec (series : list Q) (ind : list nat) :
  ind <> [] -> Forall (fun i => i < length series) ind ->
  exists max_ind,
    largest_peak series ind = Ok max_ind /\ In max_ind ind /\
    forall i, In i ind -> (Numpy.at_ series i <= Numpy.at_ series max_ind)%Q.
Proof.
  intros Hne Hrange. unfold largest_peak.
  rewrite (take_in_range series 0%Q Hrange). cbn [bind].
  destruct (@argmax_spec (map (fun i => nth i series 0%Q) ind))
    as (k & Hk & Hlt & Hmax & _).
  { destruct ind; [congruence | discriminate]. }
  rewrite length_map in Hlt, Hmax.
  rewrite Hk. cbn [bind].
  exists (nth k ind 0). split; [now apply getitem_in_range|].
  split; [now apply nth_In|].
  intros i Hi. destruct (In_nth ind i 0 Hi) as (j & Hj & <-).
  specialize (Hmax j Hj). now rewrite !at_nth_map in Hmax.
Qed.

(** With no peak at all the largest peak does not exist: [numpy.argmax]
    refuses the empty array. *)
Lemma largest_peak_none (series : list Q) :
  largest_peak series [] = Raise ValueError.
Proof. reflexivity. Qed.

(** On an increasing index array the positions computed over
    [ind[ind <= max_ind]] select, in [ind] itself, the qualifying peaks. *)
Lemma qualifying_sorted (t : list Q) (ind : list nat) (max_ind : nat) (t_c : Q) :
  StronglySorted lt ind -> Forall (fun i => i < length t) ind ->
  qualifying t ind max_ind t_c = Ok (filter (qualifies t max_ind t_c) ind).
Proof.
  intros Hs Hrange. unfold qualifying.
  rewrite bool_index_map. cbn [bind].
  destruct (sorted_filter_le_prefix max_ind Hs) as [rest Hrest].
  set (before := filter (fun i => i <=? max_ind) ind) in *.
  assert (Hbefore : Forall (fun i => i < length t) before).
  { rewrite Forall_forall in *. intros i Hi. apply Hrange.
    unfold before in Hi. now apply filter_In in Hi. }
  rewrite (take_in_range t 0%Q Hbefore). cbn [bind].
  rewrite map_map.
  rewrite Hrest at 1.
  rewrite take_where_prefix by (now rewrite length_map).
  rewrite compress_map_filter.
  unfold before. rewrite filter_filter_andb. reflexivity.
Qed.

Lemma qualifies_iff (t : list Q) (max_ind : nat) (t_c : Q) (ind : list nat) (i : nat) :
  In i (filter (qualifies t max_ind t_c) ind) <->
  In i ind /\ i <= max_ind /\ (0 < Numpy.at_ t i - t_c)%Q.
Proof.
  rewrite filter_In. unfold qualifies.
  rewrite andb_true_iff, Nat.leb_le, Qlt_bool_iff. tauto.
Qed.

Section Extractor.

Variable detect_peaks : list Q -> list nat.

Lemma find_peaks_length (ity : string) (t target series : list Q) (ind : list nat) :
  find_peaks detect_peaks ity t target = Ok (series, ind) ->
  length series = length target.
Proof.
  unfold find_peaks, first_derivative.
  assert (Hfb : forall s,
            length s = length target ->
            (if Nat.eqb (length (detect_peaks s)) 0 && String.eqb ity "max"
             then target' <- Numpy.gradient s t ;; Ok (target', detect_peaks target')
             else Ok (s, detect_peaks s)) = Ok (series, ind) ->
            length series = length target).
  { intros s Hs.
    destruct (Nat.eqb (length (detect_peaks s)) 0 && String.eqb ity "max").
    - destruct (Numpy.gradient s t) as [d|e] eqn:E; cbn [bind]; [|discriminate].
      intros [= <- _]. apply gradient_length in E. congruence.
    - intros [= <- _]. exact Hs. }
  destruct (String.eqb ity "d/dt max").
  - destruct (Numpy.gradient target t) as [d|e] eqn:E; cbn [bind]; [|discriminate].
    apply Hfb. now apply gradient_length in E.
  - cbn [bind]. now apply Hfb.
Qed.

(** On a trajectory of three rows or more the search for peaks always
    ends with a series and its peaks. *)
Lemma find_peaks_total (ity : string) (t target : list Q) :
  length t = length target -> 3 <= length target ->
  exists series ind, find_peaks detect_peaks ity t target = Ok (series, ind).
Proof.
  intros Hlen Hn. unfold find_peaks, first_derivative.
  assert (Hfb : forall s,
            length s = length target ->
            exists series ind,
              (if Nat.eqb (length (detect_peaks s)) 0 && String.eqb ity "max"
               then target' <- Numpy.gradient s t ;; Ok (target', detect_peaks target')
               else Ok (s, detect_peaks s)) = Ok (series, ind)).
  { intros s Hs.
    destruct (Nat.eqb (length (detect_peaks s)) 0 && String.eqb ity "max").
    - destruct (@gradient_total s t) as [d Hd]; [congruence | lia |].
      rewrite Hd. cbn [bind]. eauto.
    - eauto. }
  destruct (String.eqb ity "d/dt max").
  - destruct (@gradient_total target t Hlen Hn) as [d Hd].
    rewrite Hd. cbn [bind]. apply Hfb. now apply gradient_length in Hd.
  - cbn [bind]. now apply Hfb.
Qed.

Lemma ign_delays_max_spec (ity : string) (t target series : list Q)
    (ind : list nat) (max_ind : nat) (compression_time : option Q) :
  find_peaks detect_peaks ity t target = Ok (series, ind) ->
  largest_peak series ind = Ok max_ind ->
  StronglySorted lt ind -> Forall (fun i => i < length t) ind ->
  ign_delays_max detect_peaks ity t target compression_time
  = Ok (map (fun i => Numpy.at_ t i - time_comp_of compression_time)%Q
            (filter (qualifies t max_ind (time_comp_of compression_time)) ind)).
Proof.
  intros Hfind Hmax Hs Hrange. unfold ign_delays_max.
  rewrite Hfind. cbn [bind]. rewrite Hmax. cbn [bind].
  rewrite qualifying_sorted by assumption.
  cbn [bind].
  rewrite (take_in_range t 0%Q).
  - cbn [bind]. now rewrite map_map.
  - rewrite Forall_forall in *. intros i Hi. apply Hrange.
    now apply filter_In in Hi.
Qed.

Lemma process_results_max (table : list Row) (it : IgnitionTarget) (ity : string)
    (compression_time : option Q) (target ds : list Q) :
  ity = "max"%string \/ ity = "d/dt max"%string ->
  target_column table it = Ok target ->
  ign_delays_max detect_peaks ity (map time table) target compression_time = Ok ds ->
  process_results detect_peaks table it ity compression_time = Ok (report ds).
Proof.
  intros Hty Hcol Hds. unfold process_results.
  rewrite Hcol. cbn [bind].
  assert (E : (String.eqb ity "max" || String.eqb ity "d/dt max") = true)
    by (destruct Hty as [-> | ->]; reflexivity).
  rewrite E, Hds. reflexivity.
Qed.

Lemma process_results_no_peak (table : list Row) (it : IgnitionTarget) (ity : string)
    (compression_time : option Q) (target series : list Q) :
  ity = "max"%string \/ ity = "d/dt max"%string ->
  target_column table it = Ok target ->
  find_peaks detect_peaks ity (map time table) target = Ok (series, []) ->
  process_results detect_peaks table it ity compression_time = Raise ValueError.
Proof.
  intros Hty Hcol Hfind. unfold process_results.
  rewrite Hcol. cbn [bind].
  assert (E : (String.eqb ity "max" || String.eqb ity "d/dt max") = true)
    by (destruct Hty as [-> | ->]; reflexivity).
  rewrite E. unfold ign_delays_max. rewrite Hfind. reflexivity.
Qed.

End Extractor.

Ltac increasing_by_cases :=
  let i := fresh "i" in
  let Hi := fresh "Hi" in
  intros i Hi; simpl in Hi;
  repeat (destruct i as [|i]; [reflexivity|]); lia.

Ltac in_range_by_cases :=
  repeat (apply Forall_cons; [simpl; lia|]); apply Forall_nil.

Ltac sorted_by_cases :=
  repeat (apply SSorted_cons; [|in_range_by_cases]); apply SSorted_nil.

(** C1.  Under ['max'] and ['d/dt max'], with the detected peaks in
    increasing order and inside the trajectory: the peaks kept are exactly
    the detected peaks at or before the largest peak whose time minus the
    compression time (zero when there is none) is positive, and when there
    is such a peak the overall ignition delay is the time minus the
    compression time of the last of them, which is the latest in time. *)
Theorem overall_delay_is_last_qualifying_peak
    (detect_peaks : list Q -> list nat) (table : list Row)
    (it : IgnitionTarget) (ity : string) (compression_time : option Q)
    (target series : list Q) (ind : list nat) :
  ity = "max"%string \/ ity = "d/dt max"%string ->
  target_column table it = Ok target ->
  find_peaks detect_peaks ity (map time table) target = Ok (series, ind) ->
  ind <> [] ->
  StronglySorted lt ind ->
  Forall (fun i => i < length table) ind ->
  increasing (map time table) ->
  let t := map time table in
  let t_c := time_comp_of compression_time in
  exists max_ind r,
    largest_peak series ind = Ok max_ind /\
    In max_ind ind /\
    (forall i, In i ind -> (Numpy.at_ series i <= Numpy.at_ series max_ind)%Q) /\
    let members := filter (qualifies t max_ind t_c) ind in
    qualifying t ind max_ind t_c = Ok members /\
    (forall i, In i members <->
               In i ind /\ i <= max_ind /\ (0 < Numpy.at_ t i - t_c)%Q) /\
    process_results detect_peaks table it ity compression_time = Ok r /\
    (members <> [] ->
     In (last members 0) members /\
     (forall i, In i members -> (Numpy.at_ t i <= Numpy.at_ t (last members 0%nat))%Q) /\
     simulated_ignition_delay r = Seconds (Numpy.at_ t (last members 0) - t_c)).
Proof.
  intros Hty Hcol Hfind Hne Hs Hrange Hinc t t_c.
  assert (Hlen : length series = length table).
  { apply find_peaks_length in Hfind. apply target_column_length in Hcol. congruence. }
  assert (Hrange_t : Forall (fun i => i < length t) ind)
    by (unfold t; now rewrite length_map).
  destruct (@largest_peak_spec series ind Hne) as (max_ind & Hlp & Hin & Hle);
    [now rewrite Hlen|].
  pose proof (@ign_delays_max_spec detect_peaks ity t target series ind max_ind
                compression_time Hfind Hlp Hs Hrange_t) as Hds.
  pose proof (@process_results_max detect_peaks table it ity compression_time
                target _ Hty Hcol Hds) as Hpr.
  exists max_ind. eexists.
  split; [exact Hlp|]. split; [exact Hin|]. split; [exact Hle|].
  cbn zeta.
  split; [now apply qualifying_sorted|].
  split; [intro i; apply qualifies_iff|].
  split; [exact Hpr|].
  fold t t_c. set (members := filter (qualifies t max_ind t_c) ind).
  intro Hmem.
  assert (Hsm : StronglySorted lt members) by (now apply sorted_filter).
  split; [now apply last_in|]. split.
  - intros i Hi. apply increasing_le; [exact Hinc | now apply sorted_le_last |].
    rewrite Forall_forall in Hrange_t. apply Hrange_t.
    assert (Hl : In (last members 0) members) by (now apply last_in).
    unfold members in Hl. now apply filter_In in Hl.
  - unfold report. cbn [simulated_ignition_delay].
    rewrite length_map.
    destruct members as [|m ms] eqn:E; [congruence|].
    cbn [length Nat.ltb Nat.leb].
    f_equal.
    exact (@last_map nat Q (fun i => (Numpy.at_ t i - t_c)%Q) (m :: ms) 0 0%Q Hmem).
Qed.

Lemma overall_delay_is_last_qualifying_peak_witness :
  exists r,
    process_results local_maxima two_stage_table Pressure "max" None = Ok r /\
    simulated_ignition_delay r = Seconds (4 - 0).
Proof.
  destruct (@overall_delay_is_last_qualifying_peak
              local_maxima two_stage_table Pressure "max" None
              (map pressure two_stage_table) (map pressure two_stage_table) [1; 4])
    as (max_ind & r & Hlp & _ & _ & _ & _ & Hpr & Hlast).
  - now left.
  - reflexivity.
  - reflexivity.
  - discriminate.
  - sorted_by_cases.
  - in_range_by_cases.
  - increasing_by_cases.
  - exists r. split; [exact Hpr|].
    injection Hlp as <-.
    apply Hlast. discriminate.
Defined.

(** X19.  The first-stage delay when at least one peak was detected.  Under
    ['max'] and ['d/dt max'], with the detected peaks in increasing order
    and inside a trajectory of increasing times: when more than one peak
    qualifies, the first-stage delay is the time minus the compression time
    of the earliest qualifying peak and is less than the overall delay;
    when at most one qualifies it is not-a-number. *)
Theorem first_stage_delay_is_earliest_qualifying_peak
    (detect_peaks : list Q -> list nat) (table : list Row)
    (it : IgnitionTarget) (ity : string) (compression_time : option Q)
    (target series : list Q) (ind : list nat) :
  ity = "max"%string \/ ity = "d/dt max"%string ->
  target_column table it = Ok target ->
  find_peaks detect_peaks ity (map time table) target = Ok (series, ind) ->
  ind <> [] ->
  StronglySorted lt ind ->
  Forall (fun i => i < length table) ind ->
  increasing (map time table) ->
  let t := map time table in
  let t_c := time_comp_of compression_time in
  exists max_ind r,
    largest_peak series ind = Ok max_ind /\
    process_results detect_peaks table it ity compression_time = Ok r /\
    let members := filter (qualifies t max_ind t_c) ind in
    (1 < length members ->
     In (hd 0 members) members /\
     (forall i, In i members -> (Numpy.at_ t (hd 0%nat members) <= Numpy.at_ t i)%Q) /\
     simulated_first_stage_delay r = Seconds (Numpy.at_ t (hd 0 members) - t_c) /\
     exists overall,
       simulated_ignition_delay r = Seconds overall /\
       (Numpy.at_ t (hd 0%nat members) - t_c < overall)%Q) /\
    (length members <= 1 -> simulated_first_stage_delay r = NaN).
Proof.
  intros Hty Hcol Hfind Hne Hs Hrange Hinc t t_c.
  assert (Hlen : length series = length table).
  { apply find_peaks_length in Hfind. apply target_column_length in Hcol. congruence. }
  assert (Hrange_t : Forall (fun i => i < length t) ind)
    by (unfold t; now rewrite length_map).
  destruct (@largest_peak_spec series ind Hne) as (max_ind & Hlp & Hin & Hle);
    [now rewrite Hlen|].
  pose proof (@ign_delays_max_spec detect_peaks ity t target series ind max_ind
                compression_time Hfind Hlp Hs Hrange_t) as Hds.
  pose proof (@process_results_max detect_peaks table it ity compression_time
                target _ Hty Hcol Hds) as Hpr.
  exists max_ind. eexists.
  split; [exact Hlp|]. split; [exact Hpr|].
  cbn zeta. fold t t_c. set (members := filter (qualifies t max_ind t_c) ind).
  assert (Hsm : StronglySorted lt members) by (now apply sorted_filter).
  assert (Hsub : forall i, In i members -> i < length t).
  { intros i Hi. rewrite Forall_forall in Hrange_t. apply Hrange_t.
    unfold members in Hi. now apply filter_In in Hi. }
  unfold report. cbn [simulated_first_stage_delay simulated_ignition_delay].
  rewrite length_map.
  split.
  - intro Hmany.
    assert (Hmem : members <> []) by (intros E; rewrite E in Hmany; cbn in Hmany; lia).
    assert (Hhd : In (hd 0 members) members)
      by (destruct members; [congruence | now left]).
    assert (Hlast : In (last members 0) members) by (now apply last_in).
    split; [exact Hhd|]. split.
    + intros i Hi. apply increasing_le; [exact Hinc | now apply sorted_hd_le | now apply Hsub].
    + destruct (Nat.ltb_spec 1 (length members)) as [_|]; [|lia].
      destruct (Nat.ltb_spec 0 (length members)) as [_|]; [|lia].
      split.
      * f_equal.
        exact (@hd_map nat Q (fun i => (Numpy.at_ t i - t_c)%Q) members 0 0%Q Hmem).
      * eexists. split; [reflexivity|].
        rewrite (@last_map nat Q (fun i => (Numpy.at_ t i - t_c)%Q) members 0 0%Q Hmem).
        assert (Hlt : (Numpy.at_ t (hd 0%nat members)
                       < Numpy.at_ t (last members 0%nat))%Q).
        { apply increasing_lt; [exact Hinc | now apply sorted_hd_lt_last | now apply Hsub]. }
        lra.
  - intro Hfew.
    destruct (Nat.ltb_spec 1 (length members)) as [|_]; [lia | reflexivity].
Qed.

Lemma first_stage_delay_is_earliest_qualifying_peak_witness :
  exists r,
    process_results local_maxima two_stage_table Pressure "max" None = Ok r /\
    simulated_first_stage_delay r = Seconds (1 - 0) /\
    exists overall,
      simulated_ignition_delay r = Seconds overall /\ (1 - 0 < overall)%Q.
Proof.
  destruct (@first_stage_delay_is_earliest_qualifying_peak
              local_maxima two_stage_table Pressure "max" None
              (map pressure two_stage_table) (map pressure two_stage_table) [1; 4])
    as (max_ind & r & Hlp & Hpr & Hmany & _).
  - now left.
  - reflexivity.
  - reflexivity.
  - discriminate.
  - sorted_by_cases.
  - in_range_by_cases.
  - increasing_by_cases.
  - exists r. split; [exact Hpr|].
    injection Hlp as <-.
    apply Hmany. simpl. lia.
Defined.

(** C2.  When the search of lines 461-471 ends with no peak at all, under
    ['max'] after the derivative fallback or under ['d/dt max'],
    [process_results] raises a [ValueError] at line 474 and reports no
    delay: [numpy.argmax] refuses the empty array. *)
Theorem no_peak_raises
    (detect_peaks : list Q -> list nat) (table : list Row)
    (it : IgnitionTarget) (ity : string) (compression_time : option Q)
    (target series : list Q) :
  ity = "max"%string \/ ity = "d/dt max"%string ->
  target_column table it = Ok target ->
  find_peaks detect_peaks ity (map time table) target = Ok (series, []) ->
  process_results detect_peaks table it ity compression_time = Raise ValueError.
Proof.
  intros Hty Hcol Hfind. now apply process_results_no_peak with target series.
Qed.

(** A trajectory whose target never changes: neither the pressure nor its
    derivative has a peak. *)
Lemma no_peak_raises_witness :
  (exists series,
     find_peaks local_maxima "max" (map time flat_table) (map pressure flat_table)
     = Ok (series, [])) /\
  process_results local_maxima flat_table Pressure "max" None = Raise ValueError.
Proof.
  split.
  - eexists. reflexivity.
  - eapply (@no_peak_raises local_maxima flat_table Pressure "max" None
              (map pressure flat_table)).
    + now left.
    + reflexivity.
    + reflexivity.
Defined.

(** C7.  When no peak at all is detected, no peak qualifies, and yet no
    first-stage delay is reported, not-a-number or other: [process_results]
    returns no result. *)
Theorem no_peak_no_first_stage_delay
    (detect_peaks : list Q -> list nat) (table : list Row)
    (it : IgnitionTarget) (ity : string) (compression_time : option Q)
    (target series : list Q) (max_ind : nat) :
  ity = "max"%string \/ ity = "d/dt max"%string ->
  target_column table it = Ok target ->
  find_peaks detect_peaks ity (map time table) target = Ok (series, []) ->
  length (filter (qualifies (map time table) max_ind (time_comp_of compression_time)) [])
  <= 1 /\
  exists e, process_results detect_peaks table it ity compression_time = Raise e.
Proof.
  intros Hty Hcol Hfind. split; [cbn [filter length]; lia|].
  exists ValueError. now apply process_results_no_peak with target series.
Qed.

(** The trajectory that never changes, under ['d/dt max']. *)
Lemma no_peak_no_first_stage_delay_witness :
  exists e, process_results local_maxima flat_table Pressure "d/dt max" None = Raise e.
Proof.
  apply (@no_peak_no_first_stage_delay local_maxima flat_table Pressure "d/dt max" None
           (map pressure flat_table) [(0 # 4); (0 # 2); (0 # 2); (0 # 4)]%Q 0).
  - now right.
  - reflexivity.
  - reflexivity.
Defined.

(** X20.  When peaks were detected and none of them qualifies, the branch
    of lines 501-502 is taken: the overall delay is 0 s and the first-stage
    delay is not-a-number. *)
Lemma no_qualifying_peak_reports_zero
    (detect_peaks : list Q -> list nat) (table : list Row)
    (it : IgnitionTarget) (ity : string) (compression_time : option Q)
    (target series : list Q) (ind : list nat) (max_ind : nat) :
  ity = "max"%string \/ ity = "d/dt max"%string ->
  target_column table it = Ok target ->
  find_peaks detect_peaks ity (map time table) target = Ok (series, ind) ->
  largest_peak series ind = Ok max_ind ->
  StronglySorted lt ind ->
  Forall (fun i => i < length table) ind ->
  filter (qualifies (map time table) max_ind (time_comp_of compression_time)) ind = [] ->
  process_results detect_peaks table it ity compression_time
  = Ok {| simulated_ignition_delay := Seconds 0;
          simulated_first_stage_delay := NaN |}.
Proof.
  intros Hty Hcol Hfind Hlp Hs Hrange Hnone.
  assert (Hrange_t : Forall (fun i => i < length (map time table)) ind)
    by (now rewrite length_map).
  pose proof (@ign_delays_max_spec detect_peaks ity (map time table) target series ind
                max_ind compression_time Hfind Hlp Hs Hrange_t) as Hds.
  rewrite Hnone in Hds.
  exact (@process_results_max detect_peaks table it ity compression_time
           target _ Hty Hcol Hds).
Qed.

(** Both peaks of the two-stage trace lie within a compression time of
    10 s. *)
Example compression_time_after_all_peaks :
  process_results local_maxima two_stage_table Pressure "max" (Some 10%Q)
  = Ok {| simulated_ignition_delay := Seconds 0;
          simulated_first_stage_delay := NaN |}.
Proof. reflexivity. Qed.

(** The positions of line 481 are positions in [ind[ind <= max_ind]]; on
    an index array that is not increasing they pick other entries of
    [ind]. *)
Example qualifying_on_unordered_indices :
  qualifying [0; 1; 2; 3; 4; 5]%Q [5; 2; 3] 3 0%Q = Ok [5; 2].
Proof. reflexivity. Qed.

(** The detector of the concrete runs returns increasing indices, inside
    the signal and after its first sample. *)
Lemma seq_sorted (s n : nat) : StronglySorted lt (seq s n).
Proof.
  revert s. induction n as [|n IH]; intro s; cbn [seq]; constructor.
  - apply IH.
  - apply Forall_forall. intros i Hi. apply in_seq in Hi. lia.
Qed.

Lemma local_maxima_sorted (x : list Q) : StronglySorted lt (local_maxima x).
Proof. unfold local_maxima. apply sorted_filter, seq_sorted. Qed.

Lemma local_maxima_in_range (x : list Q) :
  Forall (fun i => 0 < i < length x) (local_maxima x).
Proof.
  unfold local_maxima. apply Forall_forall. intros i Hi.
  apply filter_In in Hi. destruct Hi as [Hi _]. apply in_seq in Hi. lia.
Qed.

Lemma at_firstn (l : list Q) (m j : nat) :
  j < m -> Numpy.at_ (firstn m l) j = Numpy.at_ l j.
Proof.
  intro Hj. unfold Numpy.at_. rewrite nth_firstn.
  destruct (Nat.ltb_spec j m); [reflexivity | lia].
Qed.

(** C6.  Under ['1/2 max'], with at least one detected peak and the peaks
    inside the trajectory and after its first sample: the one delay reported
    is the time of the sample before the largest detected peak whose value
    is closest to half the largest value of the series; the first-stage
    delay is not-a-number. *)
Theorem half_max_delay_is_closest_sample_before_peak
    (detect_peaks : list Q -> list nat) (table : list Row)
    (it : IgnitionTarget) (compression_time : option Q) (target : list Q) :
  target_column table it = Ok target ->
  detect_peaks target <> [] ->
  Forall (fun i => 0 < i < length table) (detect_peaks target) ->
  let t := map time table in
  let ind := detect_peaks target in
  exists max_val max_ind half_idx,
    Numpy.max target = Ok max_val /\
    In max_val target /\
    (forall v, In v target -> (v <= max_val)%Q) /\
    largest_peak target ind = Ok max_ind /\
    In max_ind ind /\
    (forall i, In i ind -> (Numpy.at_ target i <= Numpy.at_ target max_ind)%Q) /\
    half_idx < max_ind /\
    (forall j, j < max_ind ->
       (Qabs (Numpy.at_ target half_idx - (1 # 2) * max_val)
        <= Qabs (Numpy.at_ target j - (1 # 2) * max_val))%Q) /\
    process_results detect_peaks table it "1/2 max" compression_time
    = Ok {| simulated_ignition_delay := Seconds (Numpy.at_ t half_idx);
            simulated_first_stage_delay := NaN |}.
Proof.
  intros Hcol Hne Hrange t ind. fold ind in Hne, Hrange.
  pose proof (target_column_length _ _ Hcol) as Hlen.
  assert (Hrange' : Forall (fun i => i < length target) ind).
  { rewrite Forall_forall in *. intros i Hi. specialize (Hrange i Hi). lia. }
  destruct (@largest_peak_spec target ind Hne Hrange') as (max_ind & Hlp & Hin & Hle).
  assert (Hpos : 0 < max_ind < length table).
  { rewrite Forall_forall in Hrange. now apply Hrange. }
  destruct (@max_spec target) as (max_val & Hmax & Hmax_in & Hmax_le).
  { intros E. rewrite E in Hlen. cbn in Hlen. lia. }
  set (dist := fun v : Q => Qabs (v - (1 # 2) * max_val)).
  assert (Hfl : length (firstn max_ind target) = max_ind)
    by (rewrite length_firstn; lia).
  destruct (@argmin_spec (map dist (firstn max_ind target)))
    as (half_idx & Hargmin & Hlt & Hmin & _).
  { intros E. apply (f_equal (@length Q)) in E.
    rewrite length_map, Hfl in E. cbn in E. lia. }
  rewrite length_map, Hfl in Hlt, Hmin.
  exists max_val, max_ind, half_idx.
  split; [exact Hmax|]. split; [exact Hmax_in|]. split; [exact Hmax_le|].
  split; [exact Hlp|]. split; [exact Hin|]. split; [exact Hle|].
  split; [exact Hlt|]. split.
  - intros j Hj. specialize (Hmin j Hj).
    rewrite !at_map, !at_firstn in Hmin by (rewrite ?Hfl; lia).
    exact Hmin.
  - unfold process_results. rewrite Hcol. cbn [bind].
    replace (String.eqb "1/2 max" "max" || String.eqb "1/2 max" "d/dt max")
      with false by reflexivity.
    rewrite String.eqb_refl.
    unfold ign_delays_half_max. rewrite Hmax. cbn [bind].
    fold ind. rewrite Hlp. cbn [bind].
    fold dist. rewrite Hargmin. cbn [bind].
    rewrite (@getitem_in_range Q (map time table) half_idx 0%Q)
      by (rewrite length_map; lia).
    reflexivity.
Qed.

Lemma half_max_delay_is_closest_sample_before_peak_witness :
  exists half_idx,
    half_idx < 2 /\
    process_results local_maxima one_stage_table Pressure "1/2 max" None
    = Ok {| simulated_ignition_delay :=
              Seconds (Numpy.at_ (map time one_stage_table) half_idx);
            simulated_first_stage_delay := NaN |}.
Proof.
  destruct (@half_max_delay_is_closest_sample_before_peak
              local_maxima one_stage_table Pressure None
              (map pressure one_stage_table))
    as (max_val & max_ind & half_idx & _ & _ & _ & Hlp & _ & _ & Hlt & _ & Hpr).
  - reflexivity.
  - discriminate.
  - in_range_by_cases.
  - exists half_idx. injection Hlp as <-. split; [exact Hlt | exact Hpr].
Defined.

(** ** [setup_case]: the ignition target *)

Section Resolver.

Variable species_index : string -> result nat.

Lemma try_list_of_candidates (spec : string) :
  spec <> EmptyString -> try_list_of spec = Ok (candidates spec).
Proof.
  intro Hne. unfold try_list_of, candidates, ends_with_star.
  destruct (last_char spec) as [c|e] eqn:E.
  - cbn [bind]. destruct (Ascii.eqb c "*"); [reflexivity|].
    now rewrite app_nil_r.
  - exfalso. clear - Hne E.
    induction spec as [|c s IH]; [congruence|].
    cbn [last_char] in E. destruct s as [|c' s']; [discriminate|].
    apply IH; [discriminate | exact E].
Qed.

(** The lookup loop stops at the first candidate the mechanism knows. *)
Lemma find_species_first (pre post : list string) (sp : string) (i : nat) :
  Forall (fun c => species_index c = Raise ValueError) pre ->
  species_index sp = Ok i ->
  find_species species_index (pre ++ sp :: post) = Ok (Some i).
Proof.
  intros Hpre Hsp. induction Hpre as [|c pre Hc _ IH]; cbn [app find_species].
  - now rewrite Hsp.
  - now rewrite Hc.
Qed.

Lemma find_species_none (l : list string) :
  Forall (fun c => species_index c = Raise ValueError) l ->
  find_species species_index l = Ok None.
Proof.
  induction 1 as [|c l Hc _ IH]; cbn [find_species]; [reflexivity|].
  now rewrite Hc.
Qed.

(** A first match at an index other than zero is taken, and the criterion
    is kept. *)
Lemma setup_case_first_match (it : IgnitionType) (pre post : list string)
    (sp : string) (k : nat) :
  target it <> "pressure"%string -> target it <> "temperature"%string ->
  target it <> EmptyString ->
  candidates (target it) = pre ++ sp :: post ->
  Forall (fun c => species_index c = Raise ValueError) pre ->
  species_index sp = Ok (S k) ->
  setup_case species_index it
  = Ok {| ignition_target := Species (S k); ignition_type := type_ it; printed := [] |}.
Proof.
  intros Hp Ht Hne Hcand Hpre Hsp. unfold setup_case.
  apply String.eqb_neq in Hp, Ht. rewrite Hp, Ht. cbn [orb negb].
  rewrite (try_list_of_candidates Hne). cbn [bind].
  rewrite Hcand, (find_species_first post Hpre Hsp). reflexivity.
Qed.

(** A first match at index zero is treated as no match. *)
Lemma setup_case_first_match_zero (it : IgnitionType) (pre post : list string)
    (sp : string) :
  target it <> "pressure"%string -> target it <> "temperature"%string ->
  target it <> EmptyString ->
  candidates (target it) = pre ++ sp :: post ->
  Forall (fun c => species_index c = Raise ValueError) pre ->
  species_index sp = Ok 0 ->
  setup_case species_index it
  = Ok {| ignition_target := Pressure; ignition_type := "d/dt max";
          printed := [warning (target it)] |}.
Proof.
  intros Hp Ht Hne Hcand Hpre Hsp. unfold setup_case.
  apply String.eqb_neq in Hp, Ht. rewrite Hp, Ht. cbn [orb negb].
  rewrite (try_list_of_candidates Hne). cbn [bind].
  rewrite Hcand, (find_species_first post Hpre Hsp). reflexivity.
Qed.

End Resolver.

(** C3.  When the first candidate the mechanism knows has index 0,
    [setup_case] does not take it: the test [if ind:] fails on 0, the
    warning is printed, and the target falls back on the pressure with the
    criterion ['d/dt max']. *)
Theorem setup_case_species_at_index_zero
    (species_index : string -> result nat) (it : IgnitionType)
    (pre post : list string) (sp : string) :
  target it <> "pressure"%string -> target it <> "temperature"%string ->
  target it <> EmptyString ->
  candidates (target it) = pre ++ sp :: post ->
  Forall (fun c => species_index c = Raise ValueError) pre ->
  species_index sp = Ok 0 ->
  setup_case species_index it
  = Ok {| ignition_target := Pressure; ignition_type := "d/dt max";
          printed := [warning (target it)] |}.
Proof.
  intros Hp Ht Hne Hcand Hpre Hsp.
  now apply setup_case_first_match_zero with pre post sp.
Qed.

(** In a mechanism whose first species is [H2], the label [H2]. *)
Lemma setup_case_species_at_index_zero_witness :
  index_of h2_o2_mechanism "H2" = Ok 0 /\
  setup_case (index_of h2_o2_mechanism) {| target := "H2"; type_ := "max" |}
  = Ok {| ignition_target := Pressure; ignition_type := "d/dt max";
          printed := [warning "H2"] |}.
Proof.
  split; [reflexivity|].
  apply (@setup_case_species_at_index_zero
           (index_of h2_o2_mechanism) {| target := "H2"; type_ := "max" |}
           [] ["h2"%string] "H2").
  - discriminate.
  - discriminate.
  - discriminate.
  - reflexivity.
  - apply Forall_nil.
  - reflexivity.
Defined.

(** C9.  The empty label is neither ['pressure'] nor ['temperature'], so
    it is taken for a species label.  Whatever the mechanism, and so also
    when none of the candidates is a species of it, [setup_case] does not
    fall back on the pressure: reading the last character of the label,
    [spec[-1]] at line 318, raises an [IndexError] before any lookup. *)
Theorem setup_case_empty_label_raises
    (species_index : string -> result nat) (it : IgnitionType) :
  target it = EmptyString ->
  setup_case species_index it = Raise IndexError.
Proof.
  intros Hempty. unfold setup_case. rewrite Hempty. reflexivity.
Qed.

(** In a mechanism that has no species of the empty name. *)
Lemma setup_case_empty_label_raises_witness :
  Forall (fun c => index_of h2_o2_mechanism c = Raise ValueError) (candidates "") /\
  setup_case (index_of h2_o2_mechanism) {| target := ""; type_ := "max" |}
  = Raise IndexError.
Proof.
  assert (Hnone : Forall (fun c => index_of h2_o2_mechanism c = Raise ValueError)
                         (candidates "")).
  { repeat (apply Forall_cons; [reflexivity|]). apply Forall_nil. }
  split; [exact Hnone|].
  apply (@setup_case_empty_label_raises
           (index_of h2_o2_mechanism) {| target := ""; type_ := "max" |}).
  reflexivity.
Defined.

(** X26.  For a label that is not empty and is neither ['pressure'] nor
    ['temperature'], when the lookup of every candidate raises
    [ValueError], [setup_case] does not raise: it prints the warning and
    sets the target to the pressure with the criterion ['d/dt max']. *)
Theorem setup_case_falls_back_on_pressure
    (species_index : string -> result nat) (it : IgnitionType) :
  target it <> EmptyString ->
  target it <> "pressure"%string -> target it <> "temperature"%string ->
  Forall (fun c => species_index c = Raise ValueError) (candidates (target it)) ->
  setup_case species_index it
  = Ok {| ignition_target := Pressure; ignition_type := "d/dt max";
          printed := [warning (target it)] |}.
Proof.
  intros Hne Hp Ht Hnone. unfold setup_case.
  apply String.eqb_neq in Hp, Ht. rewrite Hp, Ht. cbn [orb negb].
  rewrite (try_list_of_candidates Hne). cbn [bind].
  rewrite find_species_none by exact Hnone. reflexivity.
Qed.

Lemma setup_case_falls_back_on_pressure_witness :
  setup_case (index_of h2_o2_mechanism) {| target := "CH*"; type_ := "max" |}
  = Ok {| ignition_target := Pressure; ignition_type := "d/dt max";
          printed := [warning "CH*"] |}.
Proof.
  apply (@setup_case_falls_back_on_pressure
           (index_of h2_o2_mechanism) {| target := "CH*"; type_ := "max" |}).
  - discriminate.
  - discriminate.
  - discriminate.
  - repeat (apply Forall_cons; [reflexivity|]). apply Forall_nil.
Defined.

(** ** [numpy.interp] *)

Lemma interp_outside (x : Q) (xp fp : list Q) (l r : Q) :
  xp <> [] -> length fp = length xp ->
  (x < Numpy.at_ xp 0)%Q \/ (Numpy.at_ xp (length xp - 1) < x)%Q ->
  Numpy.interp x xp fp (Some l) (Some r) = Ok l \/
  Numpy.interp x xp fp (Some l) (Some r) = Ok r.
Proof.
  intros Hne Hlen Hout. unfold Numpy.interp.
  destruct (Nat.eqb_spec (length xp) 0) as [E|_].
  { destruct xp; [congruence | discriminate]. }
  rewrite Hlen, Nat.eqb_refl. cbn [negb].
  destruct (Numpy.Qlt_bool (Numpy.at_ xp (length xp - 1)) x) eqn:E1; [now right|].
  destruct (Numpy.Qlt_bool x (Numpy.at_ xp 0)) eqn:E2; [now left|].
  apply Qlt_bool_false_iff in E1, E2.
  destruct Hout as [Hout|Hout]; exfalso; lra.
Qed.

(** The search stops at the first sample beyond [x]. *)
Lemma search_spec (x : Q) (xs : list Q) :
  forall i,
    let j := Numpy.search x xs i in
    i <= j <= i + length xs /\
    (forall k, k < j - i -> (Numpy.at_ xs k <= x)%Q) /\
    (j - i < length xs -> (x < Numpy.at_ xs (j - i))%Q).
Proof.
  induction xs as [|v xs IH]; intros i; cbn zeta; cbn [Numpy.search length].
  - repeat split; intros; lia.
  - destruct (Qle_bool v x) eqn:E.
    + apply Qle_bool_iff in E.
      destruct (IH (S i)) as (Hb & Hle & Hlt). cbn zeta in Hb, Hle, Hlt.
      set (j := Numpy.search x xs (S i)) in *.
      repeat split; try lia.
      * intros k Hk. destruct k as [|k]; [exact E|].
        rewrite at_cons_S. apply Hle. lia.
      * intro Hj. replace (j - i) with (S (j - S i)) by lia.
        rewrite at_cons_S. apply Hlt. lia.
    + apply Qle_bool_false_iff in E.
      repeat split; try lia.
      rewrite Nat.sub_diag. intros _. exact E.
Qed.

(** Between two neighbouring samples of increasing coordinates
    [numpy.interp] returns the value of the straight line through them. *)
Lemma interp_inside (x : Q) (xp fp : list Q) (left right : option Q) (j : nat) :
  length fp = length xp -> increasing xp -> j + 1 < length xp ->
  (Numpy.at_ xp j <= x <= Numpy.at_ xp (j + 1))%Q ->
  exists v,
    Numpy.interp x xp fp left right = Ok v /\
    (v == lerp (Numpy.at_ xp j) (Numpy.at_ xp (j + 1))
               (Numpy.at_ fp j) (Numpy.at_ fp (j + 1)) x)%Q.
Proof.
  intros Hlen Hinc Hj [Hlo Hhi]. unfold Numpy.interp.
  destruct (Nat.eqb_spec (length xp) 0) as [E|_]; [lia|].
  rewrite Hlen, Nat.eqb_refl. cbn [negb].
  assert (Hstep : (Numpy.at_ xp j < Numpy.at_ xp (j + 1))%Q)
    by (apply increasing_lt; [exact Hinc | lia | lia]).
  assert (Hfirst : (Numpy.at_ xp 0 <= x)%Q).
  { apply Qle_trans with (Numpy.at_ xp j); [|exact Hlo].
    apply increasing_le; [exact Hinc | lia | lia]. }
  assert (Hlast : (x <= Numpy.at_ xp (length xp - 1))%Q).
  { apply Qle_trans with (Numpy.at_ xp (j + 1)); [exact Hhi|].
    apply increasing_le; [exact Hinc | lia | lia]. }
  destruct (Numpy.Qlt_bool (Numpy.at_ xp (length xp - 1)) x) eqn:E1.
  { apply Qlt_bool_iff in E1. exfalso. lra. }
  destruct (Numpy.Qlt_bool x (Numpy.at_ xp 0)) eqn:E2.
  { apply Qlt_bool_iff in E2. exfalso. lra. }
  destruct xp as [|x0 xs]; [cbn in Hj; lia|].
  cbn [tl].
  destruct (search_spec x xs 0) as (Hb & Hle & Hlt). cbn zeta in Hb, Hle, Hlt.
  set (s := Numpy.search x xs 0) in *.
  rewrite Nat.sub_0_r in Hle, Hlt. cbn [length] in *.
  assert (Hs_le : (Numpy.at_ (x0 :: xs) s <= x)%Q).
  { destruct s as [|s']; [exact Hfirst|]. rewrite at_cons_S. apply Hle. lia. }
  assert (Hs_lt : S s < S (length xs) -> (x < Numpy.at_ (x0 :: xs) (S s))%Q).
  { intro Hs. rewrite at_cons_S. apply Hlt. lia. }
  (* the interval found is the given one, or [x] is its right end *)
  assert (Hcase : s = j \/ (s = j + 1 /\ (x == Numpy.at_ (x0 :: xs) (j + 1))%Q)).
  { destruct (Nat.lt_trichotomy s j) as [Hlt'|[Heq|Hgt]].
    - exfalso.
      assert (Hx : (x < Numpy.at_ (x0 :: xs) (S s))%Q) by (apply Hs_lt; lia).
      assert (Hm : (Numpy.at_ (x0 :: xs) (S s) <= Numpy.at_ (x0 :: xs) j)%Q)
        by (apply increasing_le; [exact Hinc | lia | cbn [length]; lia]).
      lra.
    - now left.
    - right.
      assert (Hm : (Numpy.at_ (x0 :: xs) (j + 1) <= Numpy.at_ (x0 :: xs) s)%Q)
        by (apply increasing_le; [exact Hinc | lia | cbn [length]; lia]).
      destruct (Nat.eq_dec s (j + 1)) as [->|Hne].
      + split; [reflexivity | lra].
      + exfalso.
        assert (Hm' : (Numpy.at_ (x0 :: xs) (j + 1) < Numpy.at_ (x0 :: xs) s)%Q)
          by (apply increasing_lt; [exact Hinc | lia | cbn [length]; lia]).
        lra. }
  assert (Hright : forall v : Q,
            (x == Numpy.at_ (x0 :: xs) (j + 1))%Q ->
            (v == Numpy.at_ fp (j + 1))%Q ->
            (v == lerp (Numpy.at_ (x0 :: xs) j) (Numpy.at_ (x0 :: xs) (j + 1))
                       (Numpy.at_ fp j) (Numpy.at_ fp (j + 1)) x)%Q).
  { intros v Hx Hv. unfold lerp. rewrite Hx, Hv. field. lra. }
  assert (Hleft : forall v : Q,
            (Numpy.at_ (x0 :: xs) j == x)%Q ->
            (v == Numpy.at_ fp j)%Q ->
            (v == lerp (Numpy.at_ (x0 :: xs) j) (Numpy.at_ (x0 :: xs) (j + 1))
                       (Numpy.at_ fp j) (Numpy.at_ fp (j + 1)) x)%Q).
  { intros v Hx Hv. unfold lerp. rewrite <- Hx, Hv. field. lra. }
  destruct Hcase as [->|[-> Hx]].
  - destruct (Nat.eqb_spec j (S (length xs) - 1)) as [E|_]; [lia|].
    destruct (Qeq_bool (Numpy.at_ (x0 :: xs) j) x) eqn:E3.
    + apply Qeq_bool_iff in E3. eexists. split; [reflexivity|].
      now apply Hleft.
    + eexists. split; [reflexivity|]. unfold lerp. field. lra.
  - destruct (Nat.eqb_spec (j + 1) (S (length xs) - 1)) as [E|_].
    + eexists. split; [reflexivity|]. now apply Hright.
    + destruct (Qeq_bool (Numpy.at_ (x0 :: xs) (j + 1)) x) eqn:E3.
      * eexists. split; [reflexivity|]. now apply Hright.
      * apply Qeq_bool_neq in E3. exfalso. apply E3. now symmetry.
Qed.

(** ** Boundary profiles *)

Lemma gradient_inv (f x d : list Q) :
  Numpy.gradient f x = Ok d ->
  length x = length f /\ 3 <= length f /\ length d = length f.
Proof.
  intro Hd. pose proof (gradient_length _ _ Hd) as Hlen.
  unfold Numpy.gradient in Hd.
  destruct (Nat.eqb_spec (length x) (length f)) as [E|]; [|discriminate].
  destruct (Nat.ltb_spec (length f) 2) as [|_]; [discriminate|].
  destruct (Nat.ltb_spec (length f) 3) as [|Hn]; [discriminate|].
  auto.
Qed.

(** A profile a constructor returned has at least three samples and one
    velocity per sampled time. *)
Lemma synthesized_shape (p : VolumeProfile) :
  synthesized p ->
  3 <= length (times p) /\ length (velocity p) = length (times p).
Proof.
  intros [[vh Hp] | (rho & rho0 & pres & rise & t_end & Hp)].
  - unfold VolumeProfile_init in Hp.
    destruct (Numpy.getitem (vh_volume vh) 0) as [v0|e]; cbn [bind] in Hp; [|discriminate].
    unfold first_derivative in Hp.
    destruct (Numpy.gradient _ _) as [vel|e] eqn:E; cbn [bind] in Hp; [|discriminate].
    injection Hp as <-. cbn [times velocity].
    apply gradient_inv in E. lia.
  - unfold PressureRiseProfile_init in Hp.
    destruct (create_volume_history rho rho0 pres rise t_end) as [ts volumes].
    unfold first_derivative in Hp.
    destruct (Numpy.gradient _ _) as [vel|e] eqn:E; cbn [bind] in Hp; [|discriminate].
    injection Hp as <-. cbn [times velocity].
    apply gradient_inv in E. lia.
Qed.

(** C8.  A profile returned by either constructor evaluates to exactly 0 at
    a time before its first or after its last sampled time; when the
    sampled times increase, it evaluates between two neighbouring samples
    to the value of the straight line through the two stored velocities. *)
Theorem velocity_profile_clamped_and_piecewise_linear (p : VolumeProfile) (t : Q) :
  synthesized p ->
  ((t < Numpy.at_ (times p) 0)%Q \/
   (Numpy.at_ (times p) (length (times p) - 1) < t)%Q ->
   VolumeProfile_call p t = Ok 0%Q) /\
  (increasing (times p) ->
   forall j, j + 1 < length (times p) ->
     (Numpy.at_ (times p) j <= t <= Numpy.at_ (times p) (j + 1))%Q ->
     exists v,
       VolumeProfile_call p t = Ok v /\
       (v == lerp (Numpy.at_ (times p) j) (Numpy.at_ (times p) (j + 1))
                  (Numpy.at_ (velocity p) j) (Numpy.at_ (velocity p) (j + 1)) t)%Q).
Proof.
  intro Hp. destruct (synthesized_shape Hp) as [Hn Hlen].
  unfold VolumeProfile_call. split.
  - intro Hout.
    assert (Hne : times p <> []) by (intros E; rewrite E in Hn; cbn in Hn; lia).
    destruct (@interp_outside t (times p) (velocity p) 0%Q 0%Q Hne Hlen Hout);
      assumption.
  - intros Hinc j Hj Hin. now apply interp_inside.
Qed.

Lemma compression_profile_synthesized : synthesized compression_profile.
Proof. left. exists compression_history. reflexivity. Qed.

Lemma increasing_compression_times : increasing (times compression_profile).
Proof. increasing_by_cases. Qed.

Lemma velocity_profile_clamped_and_piecewise_linear_witness :
  VolumeProfile_call compression_profile (-1) = Ok 0%Q /\
  VolumeProfile_call compression_profile 6 = Ok 0%Q /\
  exists v,
    VolumeProfile_call compression_profile 3 = Ok v /\
    (v == lerp 2 4 (Numpy.at_ (velocity compression_profile) 2)
               (Numpy.at_ (velocity compression_profile) 3) 3)%Q.
Proof.
  split; [|split].
  - apply (@velocity_profile_clamped_and_piecewise_linear compression_profile (-1)
             compression_profile_synthesized).
    left. reflexivity.
  - apply (@velocity_profile_clamped_and_piecewise_linear compression_profile 6
             compression_profile_synthesized).
    right. reflexivity.
  - apply (proj2 (@velocity_profile_clamped_and_piecewise_linear compression_profile 3
                    compression_profile_synthesized)
                 increasing_compression_times 2).
    + simpl. lia.
    + split; intro Hc; discriminate Hc.
Defined.

(** ** [run_case] *)

(** Interpolation at [x] between two samples that bracket it. *)
Lemma interp_two_points (x x0 x1 y0 y1 : Q) :
  (x0 < x)%Q -> (x < x1)%Q ->
  exists v,
    Numpy.interp x [x0; x1] [y0; y1] None None = Ok v /\
    (v == lerp x0 x1 y0 y1 x)%Q.
Proof.
  intros Hlo Hhi.
  destruct (@interp_inside x [x0; x1] [y0; y1] None None 0) as (v & Hv & Hlerp).
  - reflexivity.
  - intros i Hi. cbn [length] in Hi.
    destruct i as [|i]; [|lia]. unfold Numpy.at_. cbn [nth]. lra.
  - cbn [length]. lia.
  - unfold Numpy.at_. cbn [nth Nat.add]. lra.
  - exists v. split; [exact Hv|]. unfold Numpy.at_ in Hlerp. cbn [nth Nat.add] in Hlerp.
    exact Hlerp.
Qed.

Lemma mapM_seq_spec (f : nat -> result Q) (P : nat -> Q -> Prop) (n : nat) :
  forall s,
    (forall i, i < n -> exists v, f (s + i) = Ok v /\ P (s + i) v) ->
    exists l,
      mapM f (seq s n) = Ok l /\ length l = n /\
      forall i, i < n -> P (s + i) (Numpy.at_ l i).
Proof.
  induction n as [|n IH]; intros s Hf; cbn [seq mapM].
  - exists []. repeat split; intros; lia.
  - destruct (Hf 0) as (v & Hv & HP); [lia|]. rewrite Nat.add_0_r in Hv, HP.
    destruct (IH (S s)) as (l & Hl & Hlen & Hall).
    { intros i Hi. destruct (Hf (S i)) as (w & Hw & HPw); [lia|].
      exists w. now rewrite Nat.add_succ_comm. }
    exists (v :: l). rewrite Hv, Hl. cbn [bind length].
    repeat split; [lia|].
    intros i Hi. destruct i as [|i].
    + now rewrite Nat.add_0_r.
    + rewrite at_cons_S, <- Nat.add_succ_comm. apply Hall. lia.
Qed.

(** The row written after a step past the end time: its time is the end
    time, and every field is the value at the end time of the straight
    line from the previous state to the new one. *)
Lemma interpolated_row_spec (time_end : Q) (prev now : Row) :
  (time prev < time_end)%Q -> (time_end < time now)%Q ->
  length (mass_fractions prev) = length (mass_fractions now) ->
  exists r,
    interpolated_row time_end prev now = Ok r /\ interpolates time_end prev now r.
Proof.
  intros Hlo Hhi Hlen. unfold interpolates.
  set (line := fun a b => lerp (time prev) (time now) a b time_end).
  cbn zeta. unfold interpolated_row.
  destruct (@interp_two_points time_end (time prev) (time now)
              (temperature prev) (temperature now) Hlo Hhi) as (temp & -> & Ht1).
  destruct (@interp_two_points time_end (time prev) (time now)
              (pressure prev) (pressure now) Hlo Hhi) as (pres & -> & Hp1).
  destruct (@interp_two_points time_end (time prev) (time now)
              (volume prev) (volume now) Hlo Hhi) as (vol & -> & Hv1).
  cbn [bind].
  destruct (@mapM_seq_spec
              (fun i =>
                 a <- Numpy.getitem (mass_fractions prev) i ;;
                 b <- Numpy.getitem (mass_fractions now) i ;;
                 Numpy.interp time_end [time prev; time now] [a; b] None None)
              (fun i v =>
                 (v == line (Numpy.at_ (mass_fractions prev) i)
                            (Numpy.at_ (mass_fractions now) i))%Q)
              (length (mass_fractions now)) 0) as (mf & -> & Hmf_len & Hmf).
  { intros i Hi. cbn [Nat.add].
    rewrite (@getitem_in_range Q (mass_fractions prev) i 0%Q) by lia.
    rewrite (@getitem_in_range Q (mass_fractions now) i 0%Q) by lia.
    cbn [bind].
    destruct (@interp_two_points time_end (time prev) (time now)
                (nth i (mass_fractions prev) 0%Q) (nth i (mass_fractions now) 0%Q)
                Hlo Hhi) as (v & Hv & Hl).
    exists v. split; [exact Hv | exact Hl]. }
  cbn [bind]. eexists. split; [reflexivity|].
  cbn [time temperature pressure volume mass_fractions].
  repeat (split; [assumption || reflexivity|]).
  intros i Hi. apply (Hmf i Hi).
Qed.

Section Driver.

Context {N : Type} `{ReactorNet N}.

Variable time_end : Q.

Lemma integrate_finished (fuel : nat) (net : N) (prev : option Row) (table : list Row) :
  (time_end <= time (observe net))%Q ->
  integrate time_end fuel net prev table = Finished table.
Proof.
  intro Hend. apply Qlt_bool_false_iff in Hend.
  destruct fuel; cbn [integrate]; now rewrite Hend.
Qed.

Lemma integrate_plain_step (fuel : nat) (net net' : N) (prev : option Row)
    (table : list Row) :
  (time (observe net) < time_end)%Q -> step net = Ok net' ->
  (time (observe net') <= time_end)%Q ->
  integrate time_end (S fuel) net prev table
  = integrate time_end fuel net' (Some (observe net')) (table ++ [observe net']).
Proof.
  intros Hlt Hstep Hle. apply Qlt_bool_iff in Hlt. apply Qlt_bool_false_iff in Hle.
  cbn [integrate]. now rewrite Hlt, Hstep, Hle.
Qed.

Lemma integrate_overshoot (fuel : nat) (net net' : N) (p r : Row) (table : list Row) :
  (time (observe net) < time_end)%Q -> step net = Ok net' ->
  (time_end < time (observe net'))%Q ->
  interpolated_row time_end p (observe net') = Ok r ->
  integrate time_end (S fuel) net (Some p) table = Finished (table ++ [r]).
Proof.
  intros Hlt Hstep Hover Hrow. cbn [integrate].
  apply Qlt_bool_iff in Hlt. rewrite Hlt, Hstep.
  assert (Hover' := Hover). apply Qlt_bool_iff in Hover'. rewrite Hover', Hrow.
  apply integrate_finished. lra.
Qed.

(** The first iteration has no previous state to interpolate from. *)
Lemma integrate_overshoot_unbound (fuel : nat) (net net' : N) (table : list Row) :
  (time (observe net) < time_end)%Q -> step net = Ok net' ->
  (time_end < time (observe net'))%Q ->
  integrate time_end (S fuel) net None table = Failed UnboundLocalError.
Proof.
  intros Hlt Hstep Hover. cbn [integrate].
  apply Qlt_bool_iff in Hlt. apply Qlt_bool_iff in Hover.
  now rewrite Hlt, Hstep, Hover.
Qed.

Lemma stays_below_end_step (k : nat) (net : N) :
  stays_below_end time_end (S k) net ->
  exists net',
    step net = Ok net' /\ (time (observe net) < time_end)%Q /\
    (time (observe net') < time_end)%Q /\ stays_below_end time_end k net'.
Proof.
  intro Hs.
  destruct (Hs 0) as (n0 & Hn0 & Ht0); [lia|]. cbn [steps] in Hn0. injection Hn0 as <-.
  destruct (Hs 1) as (n1 & Hn1 & Ht1); [lia|]. cbn [steps] in Hn1.
  destruct (step net) as [net'|e] eqn:Hstep; cbn [bind] in Hn1; [|discriminate].
  injection Hn1 as <-.
  exists net'. repeat split; try assumption.
  intros j Hj. destruct (Hs (S j)) as (nj & Hnj & Htj); [lia|].
  cbn [steps] in Hnj. rewrite Hstep in Hnj. cbn [bind] in Hnj.
  now exists nj.
Qed.

(** While the steps stay below the end time each one appends its state. *)
Lemma integrate_plain_steps (k : nat) :
  forall (fuel : nat) (net net_k : N) (prev : option Row) (table : list Row),
    stays_below_end time_end (S k) net -> steps (S k) net = Ok net_k ->
    exists front,
      length front = k /\
      integrate time_end (S k + fuel) net prev table
      = integrate time_end fuel net_k (Some (observe net_k))
                  (table ++ front ++ [observe net_k]).
Proof.
  induction k as [|k IH]; intros fuel net net_k prev table Hs Hk.
  - destruct (stays_below_end_step Hs) as (net' & Hstep & Ht & Ht' & _).
    cbn [steps] in Hk. rewrite Hstep in Hk. cbn [bind] in Hk. injection Hk as <-.
    exists []. split; [reflexivity|].
    cbn [Nat.add app]. apply integrate_plain_step; [exact Ht | exact Hstep | lra].
  - destruct (stays_below_end_step Hs) as (net' & Hstep & Ht & Ht' & Hs').
    assert (Hk' : steps (S k) net' = Ok net_k).
    { change (steps (S (S k)) net) with (net'' <- step net ;; steps (S k) net'') in Hk.
      now rewrite Hstep in Hk. }
    destruct (IH fuel net' net_k (Some (observe net')) (table ++ [observe net']) Hs' Hk')
      as (front & Hlen & Hrun).
    exists (observe net' :: front). split; [cbn [length]; lia|].
    change (S (S k) + fuel) with (S (S k + fuel)).
    rewrite (@integrate_plain_step (S k + fuel) net net' prev table Ht Hstep) by lra.
    rewrite Hrun, <- app_assoc. reflexivity.
Qed.

(** The loop is left as soon as the integrator has failed or its time is no
    longer below the end time. *)
Lemma integrate_halts (k : nat) :
  forall (fuel : nat) (net : N) (prev : option Row) (table : list Row),
    reaches_end_or_fails time_end k net -> k <= fuel ->
    halted (integrate time_end fuel net prev table).
Proof.
  induction k as [|k IH]; intros fuel net prev table Hreach Hfuel.
  - unfold reaches_end_or_fails in Hreach. cbn [steps] in Hreach.
    now rewrite integrate_finished.
  - destruct fuel as [|fuel]; [lia|].
    cbn [integrate].
    destruct (Numpy.Qlt_bool (time (observe net)) time_end); [|exact I].
    unfold reaches_end_or_fails in Hreach. cbn [steps] in Hreach.
    destruct (step net) as [net'|e]; [|exact I].
    cbn [bind] in Hreach.
    destruct (Numpy.Qlt_bool time_end (time (observe net'))).
    + destruct prev as [p|]; [|exact I].
      destruct (interpolated_row time_end p (observe net')); [|exact I].
      apply IH; [exact Hreach | lia].
    + apply IH; [exact Hreach | lia].
Qed.

(** While the integrator stays below the end time the loop goes on. *)
Lemma integrate_keeps_looping (fuel : nat) :
  forall (net : N) (prev : option Row) (table : list Row),
    stays_below_end time_end fuel net ->
    exists table', integrate time_end fuel net prev table = Looping table'.
Proof.
  induction fuel as [|fuel IH]; intros net prev table Hs.
  - destruct (Hs 0) as (n0 & Hn0 & Ht0); [lia|]. cbn [steps] in Hn0. injection Hn0 as <-.
    apply Qlt_bool_iff in Ht0. cbn [integrate]. rewrite Ht0. now exists table.
  - destruct (stays_below_end_step Hs) as (net' & Hstep & Ht & Ht' & Hs').
    rewrite (@integrate_plain_step fuel net net' prev table Ht Hstep) by lra.
    now apply IH.
Qed.

End Driver.

(** X18.  When a step other than the first goes past the end time, the run
    ends with one row per state up to the last one below the end time,
    followed by one more row: its time is the end time, and each of its
    fields is the value [numpy.interp] computes at the end time on the
    straight line from that state to the overshooting one. *)
Theorem run_case_interpolates_last_row {N : Type} `{ReactorNet N}
    (time_end : Q) (k fuel : nat) (net net_k net' : N) :
  stays_below_end time_end (S k) net ->
  steps (S k) net = Ok net_k ->
  step net_k = Ok net' ->
  (time_end < time (observe net'))%Q ->
  length (mass_fractions (observe net_k)) = length (mass_fractions (observe net')) ->
  exists front r,
    run_case time_end (S (S k) + fuel) net
    = Finished ((observe net :: front) ++ [observe net_k; r]) /\
    length front = k /\
    interpolates time_end (observe net_k) (observe net') r.
Proof.
  intros Hs Hk Hstep Hover Hlen.
  assert (Hbelow : (time (observe net_k) < time_end)%Q).
  { destruct (Hs (S k)) as (n & Hn & Ht); [lia|]. rewrite Hk in Hn. now injection Hn as <-. }
  destruct (@interpolated_row_spec time_end (observe net_k) (observe net') Hbelow Hover Hlen)
    as (r & Hr & Hspec).
  destruct (@integrate_plain_steps N _ time_end k (S fuel) net net_k None [observe net]
              Hs Hk) as (front & Hfront & Hrun).
  exists front, r.
  split; [|split; [exact Hfront | exact Hspec]].
  unfold run_case.
  replace (S (S k) + fuel) with (S k + S fuel) by lia.
  rewrite Hrun.
  rewrite (@integrate_overshoot N _ time_end fuel net_k net' (observe net_k) r
             ([observe net] ++ front ++ [observe net_k]) Hbelow Hstep Hover Hr).
  cbn [app]. rewrite <- app_assoc. reflexivity.
Qed.

Lemma run_case_interpolates_last_row_witness :
  exists front r,
    run_case 2 3 two_steps
    = Finished ((observe two_steps :: front)
                ++ [ {| time := 1; temperature := 1100; pressure := 2; volume := 1;
                        mass_fractions := [(3 # 4); (1 # 4)]%Q |}; r]) /\
    time r = 2%Q /\ (temperature r == 1200)%Q.
Proof.
  destruct (@run_case_interpolates_last_row Script _ 2%Q 0 1 two_steps
              {| now := {| time := 1; temperature := 1100; pressure := 2; volume := 1;
                           mass_fractions := [(3 # 4); (1 # 4)]%Q |};
                 later := [ {| time := 4; temperature := 1400; pressure := 5; volume := 1;
                               mass_fractions := [0; 1]%Q |} ] |}
              {| now := {| time := 4; temperature := 1400; pressure := 5; volume := 1;
                           mass_fractions := [0; 1]%Q |};
                 later := [] |})
    as (front & r & Hrun & _ & Htime & Htemp & _).
  - intros j Hj. destruct j as [|[|j]]; [| | lia]; eexists; split; reflexivity.
  - reflexivity.
  - reflexivity.
  - reflexivity.
  - reflexivity.
  - exists front, r. split; [exact Hrun|]. split; [exact Htime|].
    exact (Qeq_trans _ _ 1200%Q Htemp eq_refl).
Defined.

(** C4.  When the very first step goes past the end time, the variables
    [prev_time], [prev_temp], ... have not been assigned: the run raises an
    [UnboundLocalError] and writes no final row. *)
Theorem first_step_past_end_time_raises {N : Type} `{ReactorNet N}
    (time_end : Q) (fuel : nat) (net net' : N) :
  (time (observe net) < time_end)%Q ->
  step net = Ok net' ->
  (time_end < time (observe net'))%Q ->
  run_case time_end (S fuel) net = Failed UnboundLocalError.
Proof.
  intros Hlt Hstep Hover. unfold run_case.
  now apply integrate_overshoot_unbound with net'.
Qed.

(** An end time of 1 s and a first step from 0 s to 2 s. *)
Lemma first_step_past_end_time_raises_witness :
  run_case 1 1 one_long_step = Failed UnboundLocalError.
Proof.
  apply (@first_step_past_end_time_raises Script _ 1%Q 0 one_long_step
           {| now := {| time := 2; temperature := 1400; pressure := 3; volume := 1;
                        mass_fractions := [0; 1]%Q |};
              later := [] |}).
  - reflexivity.
  - reflexivity.
  - reflexivity.
Defined.

Lemma steps_stalled (k : nat) : steps k stalled = Ok stalled.
Proof. induction k as [|k IH]; [reflexivity | exact IH]. Qed.

Lemma stalled_stays_below_end (k : nat) : stays_below_end 1 k stalled.
Proof.
  intros j _. exists stalled. split; [apply steps_stalled | reflexivity].
Qed.

(** C5, as stated, fails: an integrator whose time never advances stays
    below the end time after any number of steps, and the loop is still
    running after any number of iterations. *)
Lemma stalled_integrator_loops_forever :
  (forall k, stays_below_end 1 k stalled) /\
  (forall fuel, exists table, run_case 1 fuel stalled = Looping table).
Proof.
  split; [exact stalled_stays_below_end|].
  intro fuel. unfold run_case.
  apply integrate_keeps_looping, stalled_stays_below_end.
Qed.

(** C5, amended.  The loop is left once the integrator has failed or its
    time is no longer below the end time, after at most as many iterations
    as the integrator took steps; as long as every step succeeds and stays
    below the end time the loop goes on, whatever the number of
    iterations. *)
Theorem loop_ends_when_integrator_reaches_end_time {N : Type} `{ReactorNet N}
    (time_end : Q) (net : N) (k fuel : nat) :
  (reaches_end_or_fails time_end k net -> k <= fuel ->
   halted (run_case time_end fuel net)) /\
  (stays_below_end time_end fuel net ->
   exists table, run_case time_end fuel net = Looping table).
Proof.
  unfold run_case. split.
  - intros Hreach Hfuel. now apply integrate_halts with k.
  - intro Hs. now apply integrate_keeps_looping.
Qed.

Lemma loop_ends_when_integrator_reaches_end_time_witness :
  halted (run_case 2 2 two_steps) /\
  exists table, run_case 1 7 stalled = Looping table.
Proof.
  split.
  - apply (proj1 (@loop_ends_when_integrator_reaches_end_time Script _ 2%Q two_steps 2 2)).
    + unfold reaches_end_or_fails. simpl. intro Hc. discriminate Hc.
    + lia.
  - apply (proj2 (@loop_ends_when_integrator_reaches_end_time Script _ 1%Q stalled 0 7)).
    apply stalled_stays_below_end.
Defined.

(* ================================================================== *)
(** * Part III. Further properties *)
(* ================================================================== *)

(** ** [first_derivative]: the exceptions *)

Lemma first_derivative_raises_or_returns_aux (x y : list Q) :
  (length x <> length y -> first_derivative x y = Raise ValueError) /\
  (length x = length y -> length y < 2 -> first_derivative x y = Raise IndexError) /\
  (length x = length y -> length y = 2 -> first_derivative x y = Raise ValueError) /\
  (length x = length y -> 3 <= length y ->
   exists d, first_derivative x y = Ok d /\ length d = length y).
Proof.
  unfold first_derivative. repeat split.
  - intros Hbad. unfold Numpy.gradient.
    destruct (Nat.eqb_spec (length x) (length y)) as [E|E]; [congruence | reflexivity].
  - intros Hlen Hn. unfold Numpy.gradient.
    rewrite Hlen, Nat.eqb_refl. cbn [negb].
    destruct (Nat.ltb_spec (length y) 2) as [|]; [reflexivity | lia].
  - intros Hlen Hn. unfold Numpy.gradient.
    rewrite Hlen, Nat.eqb_refl, Hn. reflexivity.
  - intros Hlen Hn. destruct (@gradient_total y x Hlen Hn) as [d Hd].
    exists d. split; [exact Hd | now apply gradient_length in Hd].
Qed.

(** X1.  [first_derivative] raises a [ValueError] when the two arrays
    differ in length; on arrays of the same length it raises an
    [IndexError] with fewer than two samples, a [ValueError] with exactly
    two, and with three or more it returns one derivative per sample. *)
Theorem first_derivative_raises_or_returns (x y : list Q) :
  (length x <> length y -> first_derivative x y = Raise ValueError) /\
  (length x = length y -> length y < 2 -> first_derivative x y = Raise IndexError) /\
  (length x = length y -> length y = 2 -> first_derivative x y = Raise ValueError) /\
  (length x = length y -> 3 <= length y ->
   exists d, first_derivative x y = Ok d /\ length d = length y).
Proof. exact (first_derivative_raises_or_returns_aux x y). Qed.

Lemma first_derivative_raises_or_returns_witness :
  first_derivative [0; 1; 2]%Q [5; 7; 8; 9]%Q = Raise ValueError /\
  first_derivative [0]%Q [5]%Q = Raise IndexError /\
  first_derivative [0; 1]%Q [5; 7]%Q = Raise ValueError /\
  exists d, first_derivative [0; 1; 3]%Q [5; 7; 8]%Q = Ok d /\ length d = 3.
Proof.
  split; [|split; [|split]].
  - apply (proj1 (first_derivative_raises_or_returns [0; 1; 2]%Q [5; 7; 8; 9]%Q)).
    simpl. lia.
  - apply (proj1 (proj2 (first_derivative_raises_or_returns [0]%Q [5]%Q))).
    + reflexivity.
    + simpl. lia.
  - apply (proj1 (proj2 (proj2 (first_derivative_raises_or_returns [0; 1]%Q [5; 7]%Q)))).
    + reflexivity.
    + reflexivity.
  - apply (proj2 (proj2 (proj2 (first_derivative_raises_or_returns [0; 1; 3]%Q [5; 7; 8]%Q)))).
    + reflexivity.
    + simpl. lia.
Defined.

(** ** [VolumeProfile]: construction and evaluation *)

Lemma VolumeProfile_init_raises_or_returns_aux (vh : VolumeHistory) :
  (vh_volume vh = [] -> VolumeProfile_init vh = Raise IndexError) /\
  (vh_volume vh <> [] -> length (vh_time vh) <> length (vh_volume vh) ->
   VolumeProfile_init vh = Raise ValueError) /\
  (length (vh_time vh) = length (vh_volume vh) -> length (vh_volume vh) = 1 ->
   VolumeProfile_init vh = Raise IndexError) /\
  (length (vh_time vh) = length (vh_volume vh) -> length (vh_volume vh) = 2 ->
   VolumeProfile_init vh = Raise ValueError) /\
  (length (vh_time vh) = length (vh_volume vh) -> 3 <= length (vh_volume vh) ->
   exists p,
     VolumeProfile_init vh = Ok p /\ times p = vh_time vh /\
     length (velocity p) = length (times p)).
Proof.
  unfold VolumeProfile_init.
  destruct (vh_volume vh) as [|v0 vs] eqn:E.
  { repeat split; try reflexivity; try congruence; cbn [length]; intros; lia. }
  cbn [Numpy.getitem nth_error bind].
  set (volumes := map (fun v => (v / v0)%Q) (v0 :: vs)).
  assert (Hvol : length volumes = length (v0 :: vs)) by apply length_map.
  destruct (first_derivative_raises_or_returns_aux (vh_time vh) volumes)
    as (Hmis & Hone & Htwo & Hok).
  rewrite Hvol in Hmis, Hone, Htwo, Hok.
  split; [discriminate|].
  split; [intros _ Hbad; now rewrite (Hmis Hbad)|].
  split; [intros Hlen Hn; rewrite (Hone Hlen); [reflexivity | lia]|].
  split; [intros Hlen Hn; now rewrite (Htwo Hlen Hn)|].
  intros Hlen Hn. destruct (Hok Hlen Hn) as (d & Hd & Hdl).
  rewrite Hd. cbn [bind].
  eexists. split; [reflexivity|]. cbn [times velocity]. split; [reflexivity|].
  congruence.
Qed.

(** X2.  [VolumeProfile.__init__] raises an [IndexError] on an empty volume
    array and a [ValueError] when the times and the volumes, not empty,
    differ in number.  With as many times as volumes it raises an
    [IndexError] on one sample, a [ValueError] on two, and with three or
    more it keeps the times as given, with one velocity per time. *)
Theorem VolumeProfile_init_raises_or_returns (vh : VolumeHistory) :
  (vh_volume vh = [] -> VolumeProfile_init vh = Raise IndexError) /\
  (vh_volume vh <> [] -> length (vh_time vh) <> length (vh_volume vh) ->
   VolumeProfile_init vh = Raise ValueError) /\
  (length (vh_time vh) = length (vh_volume vh) -> length (vh_volume vh) = 1 ->
   VolumeProfile_init vh = Raise IndexError) /\
  (length (vh_time vh) = length (vh_volume vh) -> length (vh_volume vh) = 2 ->
   VolumeProfile_init vh = Raise ValueError) /\
  (length (vh_time vh) = length (vh_volume vh) -> 3 <= length (vh_volume vh) ->
   exists p,
     VolumeProfile_init vh = Ok p /\ times p = vh_time vh /\
     length (velocity p) = length (times p)).
Proof. exact (VolumeProfile_init_raises_or_returns_aux vh). Qed.

Lemma VolumeProfile_init_raises_or_returns_witness :
  VolumeProfile_init {| vh_time := [0; 1; 2]%Q; vh_volume := [] |} = Raise IndexError /\
  VolumeProfile_init {| vh_time := [0; 1; 2]%Q; vh_volume := [2; 1]%Q |}
  = Raise ValueError /\
  VolumeProfile_init {| vh_time := [0]%Q; vh_volume := [2]%Q |} = Raise IndexError /\
  VolumeProfile_init {| vh_time := [0; 1]%Q; vh_volume := [2; 1]%Q |} = Raise ValueError /\
  exists p,
    VolumeProfile_init compression_history = Ok p /\
    times p = vh_time compression_history /\
    length (velocity p) = length (times p).
Proof.
  split; [|split; [|split; [|split]]].
  - apply (proj1 (VolumeProfile_init_raises_or_returns
                    {| vh_time := [0; 1; 2]%Q; vh_volume := [] |})).
    reflexivity.
  - apply (proj1 (proj2 (VolumeProfile_init_raises_or_returns
                           {| vh_time := [0; 1; 2]%Q; vh_volume := [2; 1]%Q |}))).
    + discriminate.
    + simpl. lia.
  - apply (proj1 (proj2 (proj2 (VolumeProfile_init_raises_or_returns
                                  {| vh_time := [0]%Q; vh_volume := [2]%Q |})))).
    + reflexivity.
    + reflexivity.
  - apply (proj1 (proj2 (proj2 (proj2 (VolumeProfile_init_raises_or_returns
                                         {| vh_time := [0; 1]%Q;
                                            vh_volume := [2; 1]%Q |}))))).
    + reflexivity.
    + reflexivity.
  - apply (proj2 (proj2 (proj2 (proj2 (VolumeProfile_init_raises_or_returns
                                         compression_history))))).
    + reflexivity.
    + simpl. lia.
Defined.

(** X5.  At each of its sampled times, the first and the last included, a
    profile with increasing times evaluates to the velocity stored for that
    time: the clamp to 0 starts strictly outside the sampled range. *)
Theorem velocity_profile_at_sampled_times (p : VolumeProfile) (j : nat) :
  synthesized p -> increasing (times p) -> j < length (times p) ->
  exists v,
    VolumeProfile_call p (Numpy.at_ (times p) j) = Ok v /\
    (v == Numpy.at_ (velocity p) j)%Q.
Proof.
  intros Hp Hinc Hj.
  destruct (@synthesized_shape p Hp) as [Hn Hlen].
  unfold VolumeProfile_call.
  destruct (Nat.eq_dec (j + 1) (length (times p))) as [Hlast|Hmid].
  - destruct (@interp_inside (Numpy.at_ (times p) j) (times p) (velocity p)
                (Some 0%Q) (Some 0%Q) (j - 1) Hlen Hinc) as (v & Hv & Hlerp).
    + lia.
    + replace (j - 1 + 1) with j by lia. split; [|apply Qle_refl].
      apply increasing_le; [exact Hinc | lia | lia].
    + exists v. split; [exact Hv|]. rewrite Hlerp.
      replace (j - 1 + 1) with j by lia.
      assert (Hstep : (Numpy.at_ (times p) (j - 1) < Numpy.at_ (times p) j)%Q)
        by (apply increasing_lt; [exact Hinc | lia | lia]).
      unfold lerp. field. lra.
  - destruct (@interp_inside (Numpy.at_ (times p) j) (times p) (velocity p)
                (Some 0%Q) (Some 0%Q) j Hlen Hinc) as (v & Hv & Hlerp).
    + lia.
    + split; [apply Qle_refl|]. apply increasing_le; [exact Hinc | lia | lia].
    + exists v. split; [exact Hv|]. rewrite Hlerp.
      assert (Hstep : (Numpy.at_ (times p) j < Numpy.at_ (times p) (j + 1))%Q)
        by (apply increasing_lt; [exact Hinc | lia | lia]).
      unfold lerp. field. lra.
Qed.

Lemma velocity_profile_at_sampled_times_witness :
  (exists v,
     VolumeProfile_call compression_profile 0 = Ok v /\
     (v == Numpy.at_ (velocity compression_profile) 0)%Q) /\
  (exists v,
     VolumeProfile_call compression_profile 5 = Ok v /\
     (v == Numpy.at_ (velocity compression_profile) 4)%Q).
Proof.
  split.
  - apply (@velocity_profile_at_sampled_times compression_profile 0
             compression_profile_synthesized increasing_compression_times).
    simpl. lia.
  - apply (@velocity_profile_at_sampled_times compression_profile 4
             compression_profile_synthesized increasing_compression_times).
    simpl. lia.
Defined.

(** ** [setup_case]: what the resolver returns *)

Lemma find_species_some (species_index : string -> result nat)
    (l : list string) (i : nat) :
  find_species species_index l = Ok (Some i) ->
  exists c, In c l /\ species_index c = Ok i.
Proof.
  induction l as [|c l IH]; cbn [find_species]; [discriminate|].
  destruct (species_index c) as [k|e] eqn:E.
  - intros [= <-]. exists c. split; [now left | exact E].
  - destruct e; try discriminate.
    intro H. destruct (IH H) as (c' & Hin & Hc'). exists c'. split; [now right | exact Hc'].
Qed.

(** X10.  For a label that is neither ['pressure'] nor ['temperature'],
    when the first candidate the mechanism knows has an index other than 0,
    [setup_case] sets the target to that index, keeps the criterion and
    prints nothing; the candidates are tried in the order label,
    lower-case label, and for a label ending in ['*'] the label without
    the marker and its lower-case form. *)
Theorem setup_case_takes_first_known_candidate
    (species_index : string -> result nat) (it : IgnitionType)
    (pre post : list string) (sp : string) (k : nat) :
  target it <> "pressure"%string -> target it <> "temperature"%string ->
  target it <> EmptyString ->
  candidates (target it) = pre ++ sp :: post ->
  Forall (fun c => species_index c = Raise ValueError) pre ->
  species_index sp = Ok (S k) ->
  setup_case species_index it
  = Ok {| ignition_target := Species (S k); ignition_type := type_ it; printed := [] |}.
Proof.
  intros Hp Ht Hne Hcand Hpre Hsp.
  now apply setup_case_first_match with pre post sp.
Qed.

(** The excited radical [OH*] in a mechanism that only has [OH]. *)
Lemma setup_case_takes_first_known_candidate_witness :
  setup_case (index_of h2_o2_mechanism) {| target := "OH*"; type_ := "1/2 max" |}
  = Ok {| ignition_target := Species 2; ignition_type := "1/2 max"; printed := [] |}.
Proof.
  apply (@setup_case_takes_first_known_candidate
           (index_of h2_o2_mechanism) {| target := "OH*"; type_ := "1/2 max" |}
           ["OH*"; "oh*"]%string ["oh"%string] "OH" 1).
  - discriminate.
  - discriminate.
  - discriminate.
  - reflexivity.
  - repeat (apply Forall_cons; [reflexivity|]). apply Forall_nil.
  - reflexivity.
Defined.

(** X11.  Whatever [setup_case] returns, the target is never the species
    of index 0; a species target is an index the mechanism returned for
    one of the candidates, with the criterion kept and nothing printed;
    what is printed is nothing or the one warning; and the warning is
    printed exactly when a label other than ['pressure'] and
    ['temperature'] ends on the pressure as target, in which case the
    criterion is ['d/dt max']. *)
Theorem setup_case_outcomes
    (species_index : string -> result nat) (it : IgnitionType) (r : Resolved) :
  setup_case species_index it = Ok r ->
  ignition_target r <> Species 0 /\
  (forall k, ignition_target r = Species k ->
     (exists c, In c (candidates (target it)) /\ species_index c = Ok k) /\
     ignition_type r = type_ it /\ printed r = []) /\
  (printed r = [] \/ printed r = [warning (target it)]) /\
  (printed r = [warning (target it)] <->
   target it <> "pressure"%string /\ target it <> "temperature"%string /\
   ignition_target r = Pressure) /\
  (printed r = [warning (target it)] -> ignition_type r = "d/dt max"%string).
Proof.
  unfold setup_case.
  destruct (String.eqb_spec (target it) "pressure") as [Ep|Ep]; cbn [orb negb].
  - intros [= <-]. cbn [ignition_target ignition_type printed].
    split; [discriminate|]. split; [discriminate|]. split; [now left|].
    split; [|discriminate]. split; [discriminate|]. intros (Hp & _). congruence.
  - destruct (String.eqb_spec (target it) "temperature") as [Et|Et]; cbn [negb].
    + intros [= <-]. cbn [ignition_target ignition_type printed].
      split; [discriminate|]. split; [discriminate|]. split; [now left|].
      split; [|discriminate]. split; [discriminate|]. intros (_ & Ht & _). congruence.
    + destruct (try_list_of (target it)) as [l|e] eqn:Hl; cbn [bind]; [|discriminate].
      assert (Hcand : l = candidates (target it)).
      { destruct (string_dec (target it) EmptyString) as [E|E].
        - rewrite E in Hl. discriminate Hl.
        - rewrite (@try_list_of_candidates (target it) E) in Hl. congruence. }
      destruct (find_species species_index l) as [ind|e] eqn:Hfind; cbn [bind];
        [|discriminate].
      assert (Hfall :
                let r := {| ignition_target := Pressure; ignition_type := "d/dt max";
                            printed := [warning (target it)] |} in
                ignition_target r <> Species 0 /\
                (forall k, ignition_target r = Species k ->
                   (exists c, In c (candidates (target it)) /\ species_index c = Ok k) /\
                   ignition_type r = type_ it /\ printed r = []) /\
                (printed r = [] \/ printed r = [warning (target it)]) /\
                (printed r = [warning (target it)] <->
                 target it <> "pressure"%string /\ target it <> "temperature"%string /\
                 ignition_target r = Pressure) /\
                (printed r = [warning (target it)] ->
                 ignition_type r = "d/dt max"%string)).
      { cbn [ignition_target ignition_type printed].
        split; [discriminate|]. split; [discriminate|]. split; [now right|].
        split; [|reflexivity]. split; [now intros _ | reflexivity]. }
      destruct ind as [[|k]|]; cbn [truthy]; intros [= <-]; [exact Hfall | | exact Hfall].
      cbn [ignition_target ignition_type printed].
      split; [discriminate|]. split.
      { intros k' [= <-]. split; [|split; reflexivity].
        rewrite <- Hcand. now apply find_species_some. }
      split; [now left|].
      split; [|discriminate]. split; [discriminate|]. intros (_ & _ & Hc). discriminate Hc.
Qed.

(** A label the mechanism does not know, and the label ['pressure']. *)
Lemma setup_case_outcomes_witness :
  (exists r,
     setup_case (index_of h2_o2_mechanism) {| target := "CH*"; type_ := "max" |} = Ok r /\
     printed r = [warning "CH*"] /\ ignition_target r = Pressure /\
     ignition_type r = "d/dt max"%string) /\
  (exists r,
     setup_case (index_of h2_o2_mechanism) {| target := "pressure"; type_ := "max" |}
     = Ok r /\
     ignition_target r = Pressure /\ printed r <> [warning "pressure"]).
Proof.
  split.
  - eexists. split; [reflexivity|].
    destruct (@setup_case_outcomes (index_of h2_o2_mechanism)
                {| target := "CH*"; type_ := "max" |} _ eq_refl)
      as (_ & _ & _ & Hiff & Hty).
    assert (Hw : printed
                   {| ignition_target := Pressure; ignition_type := "d/dt max";
                      printed := [warning "CH*"] |} = [warning "CH*"]).
    { apply (proj2 Hiff). repeat split; discriminate. }
    split; [exact Hw|]. split; [reflexivity | exact (Hty Hw)].
  - eexists. split; [reflexivity|].
    destruct (@setup_case_outcomes (index_of h2_o2_mechanism)
                {| target := "pressure"; type_ := "max" |} _ eq_refl)
      as (_ & _ & _ & Hiff & _).
    split; [reflexivity|].
    intro Hw. destruct (proj1 Hiff Hw) as (Hp & _). now apply Hp.
Defined.

(** X12.  Only a [ValueError] of the species lookup counts as "not
    found": when the first candidate whose lookup does not raise a
    [ValueError] raises another exception, [setup_case] raises that
    exception and sets no target. *)
Theorem setup_case_propagates_other_errors
    (species_index : string -> result nat) (it : IgnitionType)
    (pre post : list string) (sp : string) (e : exn) :
  target it <> "pressure"%string -> target it <> "temperature"%string ->
  target it <> EmptyString ->
  candidates (target it) = pre ++ sp :: post ->
  Forall (fun c => species_index c = Raise ValueError) pre ->
  species_index sp = Raise e -> e <> ValueError ->
  setup_case species_index it = Raise e.
Proof.
  intros Hp Ht Hne Hcand Hpre Hsp He. unfold setup_case.
  apply String.eqb_neq in Hp, Ht. rewrite Hp, Ht. cbn [orb negb].
  rewrite (@try_list_of_candidates (target it) Hne). cbn [bind].
  rewrite Hcand.
  assert (Hfind : find_species species_index (pre ++ sp :: post) = Raise e).
  { clear Hcand. induction Hpre as [|c pre Hc _ IH]; cbn [app find_species].
    - rewrite Hsp. destruct e; congruence.
    - now rewrite Hc. }
  now rewrite Hfind.
Qed.

Lemma setup_case_propagates_other_errors_witness :
  setup_case (fun sp => if String.eqb sp "OH*" then Raise ValueError else Raise CanteraError)
             {| target := "OH*"; type_ := "max" |}
  = Raise CanteraError.
Proof.
  apply (@setup_case_propagates_other_errors
           (fun sp => if String.eqb sp "OH*" then Raise ValueError else Raise CanteraError)
           {| target := "OH*"; type_ := "max" |}
           ["OH*"%string] ["OH"; "oh"]%string "oh*" CanteraError).
  - discriminate.
  - discriminate.
  - discriminate.
  - reflexivity.
  - repeat (apply Forall_cons; [reflexivity|]). apply Forall_nil.
  - reflexivity.
  - discriminate.
Defined.

(** ** [setup_case]: the wall and the cap on the step *)

Lemma min_fold_spec (a : list Q) :
  forall v,
    let m := fold_left (fun m w => if Numpy.Qlt_bool w m then w else m) a v in
    In m (v :: a) /\ forall w, In w (v :: a) -> (m <= w)%Q.
Proof.
  induction a as [|u a IH]; intros v; cbn zeta; cbn [fold_left].
  - split; [now left|]. intros w [<-|[]]. apply Qle_refl.
  - destruct (Numpy.Qlt_bool u v) eqn:E.
    + apply Qlt_bool_iff in E. destruct (IH u) as [Hin Hle].
      split; [now right|].
      intros w [<-|Hw]; [|now apply Hle].
      apply Qle_trans with u; [apply Hle; now left | now apply Qlt_le_weak].
    + apply Qlt_bool_false_iff in E. destruct (IH v) as [Hin Hle].
      split.
      * destruct Hin as [<-|Hin]; [now left | now right; right].
      * intros w [<-|[<-|Hw]].
        -- apply Hle. now left.
        -- apply Qle_trans with v; [apply Hle; now left | exact E].
        -- apply Hle. now right.
Qed.

Lemma numpy_min_spec (l : list Q) :
  l <> [] ->
  exists m, numpy_min l = Ok m /\ In m l /\ forall w, In w l -> (m <= w)%Q.
Proof.
  destruct l as [|v a]; [congruence|]. intros _.
  eexists. split; [reflexivity|]. apply min_fold_spec.
Qed.

Lemma in_diff (x : list Q) (g : Q) :
  In g (Numpy.diff x) ->
  exists k, S k < length x /\ g = (Numpy.at_ x (S k) - Numpy.at_ x k)%Q.
Proof.
  unfold Numpy.diff. intro Hin. apply in_map_iff in Hin.
  destruct Hin as (k & <- & Hk). apply in_seq in Hk.
  exists k. split; [lia | reflexivity].
Qed.

(** X13.  For a rapid compression machine with a volume history of three
    or more samples, [setup_case] gives the wall the profile built from
    the history and caps the integrator's step at the smallest gap between
    two successive times of the history: the cap is one of the gaps, no
    gap is smaller, and it is positive when the times increase. *)
Theorem setup_reactor_rcm_with_history
    (rho : Q -> Q) (rho0 ignition_delay pres : Q) (pressure_rise : option Q)
    (vh : VolumeHistory) :
  length (vh_time vh) = length (vh_volume vh) ->
  3 <= length (vh_volume vh) ->
  exists p m,
    setup_reactor rho rho0 "rapid compression machine" ignition_delay pres
                  pressure_rise (Some vh)
    = Ok {| wall := Some (Moving p); max_time_step := Some m |} /\
    VolumeProfile_init vh = Ok p /\
    (exists k, S k < length (vh_time vh) /\
               m = (Numpy.at_ (vh_time vh) (S k) - Numpy.at_ (vh_time vh) k)%Q) /\
    (forall k, S k < length (vh_time vh) ->
               (m <= Numpy.at_ (vh_time vh) (S k) - Numpy.at_ (vh_time vh) k)%Q) /\
    (increasing (vh_time vh) -> (0 < m)%Q).
Proof.
  intros Hlen Hn.
  destruct (proj2 (proj2 (proj2 (proj2 (VolumeProfile_init_raises_or_returns_aux vh))))
              Hlen Hn)
    as (p & Hp & _).
  destruct (@numpy_min_spec (Numpy.diff (vh_time vh))) as (m & Hm & Hin & Hle).
  { intros E. apply (f_equal (@length Q)) in E. rewrite length_diff in E.
    cbn [length] in E. lia. }
  exists p, m. unfold setup_reactor.
  replace (String.eqb "rapid compression machine" "shock tube") with false by reflexivity.
  rewrite String.eqb_refl, Hp. cbn [bind]. rewrite Hm. cbn [bind].
  split; [reflexivity|]. split; [reflexivity|].
  destruct (@in_diff _ _ Hin) as (k0 & Hk0 & Hmk).
  split; [now exists k0|]. split.
  - intros k Hk. apply Hle.
    rewrite <- (@at_diff (vh_time vh) k Hk).
    apply nth_In. rewrite length_diff. lia.
  - intros Hinc. rewrite Hmk.
    assert (Hstep : (Numpy.at_ (vh_time vh) k0 < Numpy.at_ (vh_time vh) (S k0))%Q)
      by (now apply Hinc).
    lra.
Qed.

Lemma setup_reactor_rcm_with_history_witness :
  exists p m,
    setup_reactor (fun p => p) 1 "rapid compression machine" (1 # 100) 100000
                  None (Some compression_history)
    = Ok {| wall := Some (Moving p); max_time_step := Some m |} /\
    VolumeProfile_init compression_history = Ok p /\
    (exists k, S k < length (vh_time compression_history) /\
               m = (Numpy.at_ (vh_time compression_history) (S k)
                    - Numpy.at_ (vh_time compression_history) k)%Q) /\
    (forall k, S k < length (vh_time compression_history) ->
               (m <= Numpy.at_ (vh_time compression_history) (S k)
                     - Numpy.at_ (vh_time compression_history) k)%Q) /\
    (increasing (vh_time compression_history) -> (0 < m)%Q).
Proof.
  apply (@setup_reactor_rcm_with_history (fun p => p) 1 (1 # 100) 100000 None
           compression_history).
  - reflexivity.
  - simpl. lia.
Defined.

(** X14.  For a shock tube with no pressure rise, a volume history does
    not move the wall, which is at rest, but still caps the step at its
    smallest gap; with fewer than two times in the history there is no gap
    and [setup_case] raises a [ValueError]. *)
Theorem setup_reactor_shock_tube_with_history
    (rho : Q -> Q) (rho0 ignition_delay pres : Q) (vh : VolumeHistory) :
  (length (vh_time vh) < 2 ->
   setup_reactor rho rho0 "shock tube" ignition_delay pres None (Some vh)
   = Raise ValueError) /\
  (2 <= length (vh_time vh) ->
   exists m,
     setup_reactor rho rho0 "shock tube" ignition_delay pres None (Some vh)
     = Ok {| wall := Some AtRest; max_time_step := Some m |} /\
     (exists k, S k < length (vh_time vh) /\
                m = (Numpy.at_ (vh_time vh) (S k) - Numpy.at_ (vh_time vh) k)%Q) /\
     (forall k, S k < length (vh_time vh) ->
                (m <= Numpy.at_ (vh_time vh) (S k) - Numpy.at_ (vh_time vh) k)%Q)).
Proof.
  unfold setup_reactor. rewrite String.eqb_refl. cbn [bind].
  split; intro Hn.
  - assert (E : Numpy.diff (vh_time vh) = []).
    { apply length_zero_iff_nil. rewrite length_diff. lia. }
    now rewrite E.
  - destruct (@numpy_min_spec (Numpy.diff (vh_time vh))) as (m & Hm & Hin & Hle).
    { intros E. apply (f_equal (@length Q)) in E. rewrite length_diff in E.
      cbn [length] in E. lia. }
    exists m. rewrite Hm. cbn [bind]. split; [reflexivity|].
    destruct (@in_diff _ _ Hin) as (k0 & Hk0 & Hmk).
    split; [now exists k0|].
    intros k Hk. apply Hle.
    rewrite <- (@at_diff (vh_time vh) k Hk).
    apply nth_In. rewrite length_diff. lia.
Qed.

Lemma setup_reactor_shock_tube_with_history_witness :
  setup_reactor (fun p => p) 1 "shock tube" (1 # 100) 100000 None
                (Some {| vh_time := [0]%Q; vh_volume := [1]%Q |})
  = Raise ValueError /\
  exists m,
    setup_reactor (fun p => p) 1 "shock tube" (1 # 100) 100000 None
                  (Some compression_history)
    = Ok {| wall := Some AtRest; max_time_step := Some m |} /\
    (exists k, S k < length (vh_time compression_history) /\
               m = (Numpy.at_ (vh_time compression_history) (S k)
                    - Numpy.at_ (vh_time compression_history) k)%Q) /\
    (forall k, S k < length (vh_time compression_history) ->
               (m <= Numpy.at_ (vh_time compression_history) (S k)
                     - Numpy.at_ (vh_time compression_history) k)%Q).
Proof.
  split.
  - apply (proj1 (@setup_reactor_shock_tube_with_history (fun p => p) 1 (1 # 100) 100000
                    {| vh_time := [0]%Q; vh_volume := [1]%Q |})).
    simpl. lia.
  - apply (proj2 (@setup_reactor_shock_tube_with_history (fun p => p) 1 (1 # 100) 100000
                    compression_history)).
    simpl. lia.
Defined.

(** ** [run_case]: the table of a run *)

Lemma interpolated_row_time (time_end : Q) (p now r : Row) :
  interpolated_row time_end p now = Ok r -> time r = time_end.
Proof.
  unfold interpolated_row.
  repeat (match goal with
          | |- context [bind ?c _] => destruct c; cbn [bind]; [|discriminate]
          end).
  now intros [= <-].
Qed.

Lemma increasing_snoc (l : list Q) (a b : Q) :
  increasing (l ++ [a]) -> (a < b)%Q -> increasing ((l ++ [a]) ++ [b]).
Proof.
  intros Hinc Hab i Hi.
  rewrite !length_app in Hi. cbn [length] in Hi.
  destruct (Nat.eq_dec i (length l)) as [->|Hne].
  - rewrite (@at_app_l (l ++ [a]) [b] (length l))
      by (rewrite length_app; cbn [length]; lia).
    rewrite at_app_last.
    replace (S (length l)) with (length (l ++ [a])) by (rewrite length_app; cbn [length]; lia).
    now rewrite at_app_last.
  - rewrite (@at_app_l (l ++ [a]) [b] i), (@at_app_l (l ++ [a]) [b] (S i))
      by (rewrite length_app; cbn [length]; lia).
    apply Hinc. rewrite length_app. cbn [length]. lia.
Qed.

Section Table.

Context {N : Type} `{ReactorNet N}.

Variable time_end : Q.

(** What the loop appends before it is left. *)
Lemma integrate_finished_shape (fuel : nat) :
  forall (net : N) (prev : option Row) (table table' : list Row),
    integrate time_end fuel net prev table = Finished table' ->
    exists rest,
      table' = table ++ rest /\
      Forall (fun r => (time r <= time_end)%Q) rest /\
      (rest = [] -> (time_end <= time (observe net))%Q) /\
      (rest <> [] ->
       (time (observe net) < time_end)%Q /\
       (time (last rest (observe net)) == time_end)%Q).
Proof.
  induction fuel as [|fuel IH]; intros net prev table table'; cbn [integrate].
  - destruct (Numpy.Qlt_bool (time (observe net)) time_end) eqn:Hc; [discriminate|].
    intros [= <-]. exists []. rewrite app_nil_r.
    apply Qlt_bool_false_iff in Hc.
      split; [reflexivity|]. split; [constructor|].
      split; [intros _; exact Hc | congruence].
  - destruct (Numpy.Qlt_bool (time (observe net)) time_end) eqn:Hc.
    + apply Qlt_bool_iff in Hc.
      destruct (step net) as [net'|e]; [|discriminate].
      destruct (Numpy.Qlt_bool time_end (time (observe net'))) eqn:Hover.
      * apply Qlt_bool_iff in Hover.
        destruct prev as [p|]; [|discriminate].
        destruct (interpolated_row time_end p (observe net')) as [r|e] eqn:Hr;
          [|discriminate].
        rewrite integrate_finished by lra.
        intros [= <-]. exists [r].
        pose proof (interpolated_row_time _ _ _ Hr) as Ht.
        split; [reflexivity|]. split; [constructor; [rewrite Ht; apply Qle_refl | constructor]|].
        split; [discriminate|]. intros _. split; [exact Hc|].
        cbn [last]. rewrite Ht. reflexivity.
      * apply Qlt_bool_false_iff in Hover.
        intro Hrun. destruct (IH _ _ _ _ Hrun) as (rest & -> & Hall & Hnil & Hlast).
        exists (observe net' :: rest). rewrite <- app_assoc.
        split; [reflexivity|]. split; [constructor; assumption|].
        split; [discriminate|]. intros _. split; [exact Hc|].
        destruct rest as [|r0 rest'].
        -- cbn [last]. specialize (Hnil eq_refl). apply Qle_antisym; assumption.
        -- destruct Hlast as [_ Hlast]; [discriminate|].
           change (last (observe net' :: r0 :: rest') (observe net))
             with (last (r0 :: rest') (observe net)).
           rewrite <- Hlast. clear.
           generalize (observe net), (observe net'), r0.
           induction rest' as [|r1 rest IHr]; intros a b r; [reflexivity|].
           change (last (r :: r1 :: rest) a) with (last (r1 :: rest) a).
           change (last (r :: r1 :: rest) b) with (last (r1 :: rest) b).
           apply IHr.
    + intros [= <-]. exists []. rewrite app_nil_r.
      apply Qlt_bool_false_iff in Hc.
      split; [reflexivity|]. split; [constructor|].
      split; [intros _; exact Hc | congruence].
Qed.

(** With an integrator whose steps advance the time, the times of the
    table keep increasing. *)
Lemma integrate_increasing (fuel : nat) :
  advancing ->
  forall (net : N) (prev : option Row) (init : list Row) (lastrow : Row)
         (table' : list Row),
    time lastrow = time (observe net) ->
    increasing (map time (init ++ [lastrow])) ->
    integrate time_end fuel net prev (init ++ [lastrow]) = Finished table' ->
    increasing (map time table').
Proof.
  intro Hadv.
  induction fuel as [|fuel IH]; intros net prev init lastrow table' Hlast Hinc;
    cbn [integrate].
  - destruct (Numpy.Qlt_bool (time (observe net)) time_end); [discriminate|].
    now intros [= <-].
  - destruct (Numpy.Qlt_bool (time (observe net)) time_end) eqn:Hc;
      [|now intros [= <-]].
    apply Qlt_bool_iff in Hc.
    destruct (step net) as [net'|e] eqn:Hstep; [|discriminate].
    destruct (Numpy.Qlt_bool time_end (time (observe net'))) eqn:Hover.
    + apply Qlt_bool_iff in Hover.
      destruct prev as [p|]; [|discriminate].
      destruct (interpolated_row time_end p (observe net')) as [r|e] eqn:Hr;
        [|discriminate].
      rewrite integrate_finished by lra.
      intros [= <-].
      rewrite !map_app in *. cbn [map] in *.
      apply increasing_snoc; [exact Hinc|].
      rewrite (interpolated_row_time _ _ _ Hr), Hlast. exact Hc.
    + apply (IH net' (Some (observe net')) (init ++ [lastrow]) (observe net'));
        [reflexivity|].
      rewrite !map_app in *. cbn [map] in *.
      apply increasing_snoc; [exact Hinc|].
      rewrite Hlast. now apply Hadv.
Qed.

End Table.

(** X15.  The table of a finished run starts with the initial state.  When
    the initial time is already at or past the end time it holds nothing
    else; otherwise every later row has a time at or below the end time and
    the last row has the end time exactly, whether the last step landed on
    it or went past it. *)
Theorem run_case_finished_table {N : Type} `{ReactorNet N}
    (time_end : Q) (fuel : nat) (net : N) (table : list Row) :
  run_case time_end fuel net = Finished table ->
  exists rest,
    table = observe net :: rest /\
    Forall (fun r => (time r <= time_end)%Q) rest /\
    (rest = [] -> (time_end <= time (observe net))%Q) /\
    (rest <> [] ->
     (time (observe net) < time_end)%Q /\
     (time (last rest (observe net)) == time_end)%Q).
Proof.
  unfold run_case. intro Hrun.
  destruct (@integrate_finished_shape N _ time_end fuel net None [observe net] table Hrun)
    as (rest & -> & Hrest).
  exists rest. split; [reflexivity | exact Hrest].
Qed.

Lemma run_case_finished_table_witness :
  exists rest,
    two_steps_table = observe two_steps :: rest /\
    Forall (fun r => (time r <= 2)%Q) rest /\
    (rest = [] -> (2 <= time (observe two_steps))%Q) /\
    (rest <> [] ->
     (time (observe two_steps) < 2)%Q /\
     (time (last rest (observe two_steps)) == 2)%Q).
Proof.
  apply (@run_case_finished_table Script _ 2%Q 3 two_steps two_steps_table).
  reflexivity.
Defined.

(** X16.  With an integrator whose every step advances its time, the times
    in the table of a finished run increase from row to row. *)
Theorem run_case_times_increase {N : Type} `{ReactorNet N}
    (time_end : Q) (fuel : nat) (net : N) (table : list Row) :
  advancing ->
  run_case time_end fuel net = Finished table ->
  increasing (map time table).
Proof.
  unfold run_case. intros Hadv Hrun.
  apply (@integrate_increasing N _ time_end fuel Hadv net None [] (observe net) table);
    [reflexivity | | exact Hrun].
  intros i Hi. cbn in Hi. lia.
Qed.

Lemma Fragile_advancing : @advancing Fragile _.
Proof.
  intros net net'. cbn [step Fragile_ReactorNet].
  destruct (steps_left net) as [|n]; [discriminate|].
  intros [= <-]. cbn [observe Fragile_ReactorNet clock row_of time]. lra.
Qed.

Lemma run_case_times_increase_witness :
  increasing
    (map time
       [row_of 0 1; row_of 1 1; row_of 2 1;
        {| time := 5 # 2; temperature := 600 # 2; pressure := 2 # 2;
           volume := 2 # 2; mass_fractions := [(2 # 2)%Q] |}]).
Proof.
  apply (@run_case_times_increase Fragile _ (5 # 2) 4
           {| steps_left := 5; clock := 0 |}).
  - exact Fragile_advancing.
  - vm_compute. reflexivity.
Defined.

Lemma integrate_step_fails {N : Type} `{ReactorNet N} (time_end : Q) (k : nat) :
  forall (fuel : nat) (net net_k : N) (prev : option Row) (table : list Row) (e : exn),
    stays_below_end time_end k net -> steps k net = Ok net_k ->
    step net_k = Raise e ->
    integrate time_end (S k + fuel) net prev table = Failed e.
Proof.
  induction k as [|k IH]; intros fuel net net_k prev table e Hs Hk Hfail.
  - cbn [steps] in Hk. injection Hk as <-.
    destruct (Hs 0) as (n0 & Hn0 & Ht0); [lia|].
    cbn [steps] in Hn0. injection Hn0 as <-.
    apply Qlt_bool_iff in Ht0.
    cbn [Nat.add integrate]. now rewrite Ht0, Hfail.
  - destruct (@stays_below_end_step N _ time_end k net Hs) as (net' & Hstep & Ht & Ht' & Hs').
    assert (Hk' : steps k net' = Ok net_k).
    { change (steps (S k) net) with (net'' <- step net ;; steps k net'') in Hk.
      now rewrite Hstep in Hk. }
    change (S (S k) + fuel) with (S (S k + fuel)).
    rewrite (@integrate_plain_step N _ time_end (S k + fuel) net net' prev table Ht Hstep)
      by lra.
    now apply (IH fuel net' net_k).
Qed.

(** X17.  When the integrator's step raises while its time is still below
    the end time, the run ends with that exception, whatever number of rows
    had been written before. *)
Theorem run_case_step_failure {N : Type} `{ReactorNet N}
    (time_end : Q) (k fuel : nat) (net net_k : N) (e : exn) :
  stays_below_end time_end k net -> steps k net = Ok net_k ->
  step net_k = Raise e ->
  run_case time_end (S k + fuel) net = Failed e.
Proof.
  intros Hs Hk Hfail. unfold run_case.
  now apply (@integrate_step_fails N _ time_end k fuel net net_k).
Qed.

Lemma run_case_step_failure_witness :
  run_case 10 (S 2 + 0) {| steps_left := 2; clock := 0 |} = Failed CanteraError.
Proof.
  apply (@run_case_step_failure Fragile _ 10%Q 2 0
           {| steps_left := 2; clock := 0 |}
           {| steps_left := 0; clock := 0 + 1 + 1 |} CanteraError).
  - intros j Hj.
    destruct j as [|[|[|j]]]; [| | |lia];
      (eexists; split; [reflexivity | vm_compute; reflexivity]).
  - reflexivity.
  - reflexivity.
Defined.

(** ** [process_results]: further behaviour *)

Lemma no_qualifying_peak_reports_zero_witness :
  process_results local_maxima two_stage_table Pressure "max" (Some 10%Q)
  = Ok {| simulated_ignition_delay := Seconds 0;
          simulated_first_stage_delay := NaN |}.
Proof.
  apply (@no_qualifying_peak_reports_zero
           local_maxima two_stage_table Pressure "max" (Some 10%Q)
           (map pressure two_stage_table) (map pressure two_stage_table) [1; 4] 4).
  - now left.
  - reflexivity.
  - reflexivity.
  - reflexivity.
  - sorted_by_cases.
  - in_range_by_cases.
  - reflexivity.
Defined.

Lemma mapM_raises {A B : Type} (f : A -> result B) (l : list A) (e0 : exn) :
  (forall a e, f a = Raise e -> e = e0) ->
  (exists a, In a l /\ f a = Raise e0) ->
  mapM f l = Raise e0.
Proof.
  intros Honly. induction l as [|a l IH]; intros (b & Hb & Hf); [contradiction|].
  cbn [mapM].
  destruct (f a) as [v|e] eqn:E; cbn [bind].
  - destruct Hb as [<- | Hb]; [congruence|].
    rewrite IH by eauto. reflexivity.
  - now rewrite (Honly a e E).
Qed.

Lemma getitem_out_of_range {A : Type} (a : list A) (i : nat) :
  length a <= i -> Numpy.getitem a i = Raise IndexError.
Proof.
  intro Hi. unfold Numpy.getitem.
  now rewrite (proj2 (nth_error_None a i) Hi).
Qed.

Lemma getitem_raises_IndexError {A : Type} (a : list A) (i : nat) (e : exn) :
  Numpy.getitem a i = Raise e -> e = IndexError.
Proof.
  unfold Numpy.getitem. destruct (nth_error a i); [discriminate|]. now intros [= <-].
Qed.

Section Delays.

Variable detect_peaks : list Q -> list nat.

(** The peaks returned with a series are the detector's peaks of it. *)
Lemma find_peaks_detects (ity : string) (t target series : list Q) (ind : list nat) :
  find_peaks detect_peaks ity t target = Ok (series, ind) ->
  ind = detect_peaks series.
Proof.
  unfold find_peaks.
  destruct (if String.eqb ity "d/dt max" then first_derivative t target else Ok target)
    as [s|e]; cbn [bind]; [|discriminate].
  destruct (Nat.eqb (length (detect_peaks s)) 0 && String.eqb ity "max").
  - destruct (first_derivative t s) as [d|e]; cbn [bind]; [|discriminate].
    now intros [= <- <-].
  - now intros [= <- <-].
Qed.

(** Under ['max'] with no peak in the series itself the search is the
    search of ['d/dt max']. *)
Lemma find_peaks_fallback (t target : list Q) :
  detect_peaks target = [] ->
  find_peaks detect_peaks "max" t target = find_peaks detect_peaks "d/dt max" t target.
Proof.
  intro Hnone. unfold find_peaks.
  replace (String.eqb "max" "d/dt max") with false by reflexivity.
  replace (String.eqb "d/dt max" "d/dt max") with true by reflexivity.
  replace (String.eqb "max" "max") with true by reflexivity.
  replace (String.eqb "d/dt max" "max") with false by reflexivity.
  cbn [bind]. rewrite Hnone. cbn [length Nat.eqb andb].
  destruct (first_derivative t target) as [d|e]; cbn [bind]; [|reflexivity].
  now rewrite andb_false_r.
Qed.

(** What a successful run of the ['max'] branch went through. *)
Lemma ign_delays_max_inv (ity : string) (t target ds : list Q)
    (compression_time : option Q) :
  ign_delays_max detect_peaks ity t target compression_time = Ok ds ->
  exists series ind max_ind,
    find_peaks detect_peaks ity t target = Ok (series, ind) /\
    largest_peak series ind = Ok max_ind.
Proof.
  unfold ign_delays_max.
  destruct (find_peaks detect_peaks ity t target) as [[series ind]|e]; cbn [bind];
    [|discriminate].
  cbv beta iota.
  destruct (largest_peak series ind) as [max_ind|e] eqn:Hlp; cbn [bind]; [|discriminate].
  intros _. now exists series, ind, max_ind.
Qed.

Lemma process_results_inv (table : list Row) (it : IgnitionTarget) (ity : string)
    (compression_time : option Q) (r : Delays) :
  ity = "max"%string \/ ity = "d/dt max"%string ->
  process_results detect_peaks table it ity compression_time = Ok r ->
  exists target ds,
    target_column table it = Ok target /\
    ign_delays_max detect_peaks ity (map time table) target compression_time = Ok ds /\
    r = report ds.
Proof.
  intros Hty. unfold process_results.
  destruct (target_column table it) as [target|e]; cbn [bind]; [|discriminate].
  assert (E : (String.eqb ity "max" || String.eqb ity "d/dt max") = true)
    by (destruct Hty as [-> | ->]; reflexivity).
  rewrite E.
  destruct (ign_delays_max detect_peaks ity (map time table) target compression_time)
    as [ds|e] eqn:Hds; cbn [bind]; [|discriminate].
  intros [= <-]. now exists target, ds.
Qed.

End Delays.

(** X21.  Under ['max'], when the detector finds no peak in the target
    itself, the result is the one of ['d/dt max']: the delays reported, or
    the exception raised, are those of the derivative's peaks. *)
Theorem max_without_peak_is_derivative_criterion
    (detect_peaks : list Q -> list nat) (table : list Row)
    (it : IgnitionTarget) (compression_time : option Q) (target : list Q) :
  target_column table it = Ok target ->
  detect_peaks target = [] ->
  process_results detect_peaks table it "max" compression_time
  = process_results detect_peaks table it "d/dt max" compression_time.
Proof.
  intros Hcol Hnone. unfold process_results. rewrite Hcol. cbn [bind].
  replace (String.eqb "max" "max" || String.eqb "max" "d/dt max") with true by reflexivity.
  replace (String.eqb "d/dt max" "max" || String.eqb "d/dt max" "d/dt max")
    with true by reflexivity.
  unfold ign_delays_max.
  now rewrite (@find_peaks_fallback detect_peaks (map time table) target Hnone).
Qed.

Lemma max_without_peak_is_derivative_criterion_witness :
  process_results local_maxima sigmoid_table Pressure "max" None
  = process_results local_maxima sigmoid_table Pressure "d/dt max" None
  /\ process_results local_maxima sigmoid_table Pressure "d/dt max" None
     = Ok {| simulated_ignition_delay := Seconds (2 - 0);
             simulated_first_stage_delay := NaN |}.
Proof.
  split; [|reflexivity].
  apply (@max_without_peak_is_derivative_criterion
           local_maxima sigmoid_table Pressure None (map pressure sigmoid_table)).
  - reflexivity.
  - reflexivity.
Defined.

(** X22.  A trajectory of fewer than three rows cannot be processed under
    ['d/dt max'], nor under ['max'] when the detector finds no peak in the
    target: the derivative raises, an [IndexError] on fewer than two rows
    and a [ValueError] on two, and no delay is reported. *)
Theorem short_trajectory_raises
    (detect_peaks : list Q -> list nat) (table : list Row)
    (it : IgnitionTarget) (ity : string) (compression_time : option Q)
    (target : list Q) :
  target_column table it = Ok target ->
  ity = "d/dt max"%string \/ (ity = "max"%string /\ detect_peaks target = []) ->
  (length table < 2 ->
   process_results detect_peaks table it ity compression_time = Raise IndexError) /\
  (length table = 2 ->
   process_results detect_peaks table it ity compression_time = Raise ValueError).
Proof.
  intros Hcol Hty.
  pose proof (target_column_length _ _ Hcol) as Hlen.
  assert (Hraise : forall e,
            first_derivative (map time table) target = Raise e ->
            process_results detect_peaks table it ity compression_time = Raise e).
  { intros e Hd.
    assert (Hdt : process_results detect_peaks table it "d/dt max" compression_time
                  = Raise e).
    { unfold process_results. rewrite Hcol. cbn [bind].
      replace (String.eqb "d/dt max" "max" || String.eqb "d/dt max" "d/dt max")
        with true by reflexivity.
      unfold ign_delays_max, find_peaks.
      replace (String.eqb "d/dt max" "d/dt max") with true by reflexivity.
      now rewrite Hd. }
    destruct Hty as [-> | [-> Hnone]]; [exact Hdt|].
    unfold process_results in *. rewrite Hcol in *. cbn [bind] in *.
    replace (String.eqb "max" "max" || String.eqb "max" "d/dt max")
      with true by reflexivity.
    replace (String.eqb "d/dt max" "max" || String.eqb "d/dt max" "d/dt max")
      with true in Hdt by reflexivity.
    unfold ign_delays_max in *.
    now rewrite (@find_peaks_fallback detect_peaks (map time table) target Hnone). }
  destruct (first_derivative_raises_or_returns_aux (map time table) target)
    as (_ & Hone & Htwo & _).
  rewrite length_map, Hlen in Hone, Htwo.
  split; intro Hn; apply Hraise; [apply Hone | apply Htwo]; (reflexivity || exact Hn).
Qed.

Lemma short_trajectory_raises_witness :
  process_results local_maxima [row_of 0 1] Pressure "d/dt max" None
  = Raise IndexError
  /\ process_results local_maxima [row_of 0 1; row_of 1 5] Pressure "max" None
     = Raise ValueError.
Proof.
  split.
  - apply (proj1 (@short_trajectory_raises local_maxima [row_of 0 1] Pressure
                    "d/dt max" None (map pressure [row_of 0 1])
                    eq_refl (or_introl eq_refl))).
    simpl. lia.
  - apply (proj2 (@short_trajectory_raises local_maxima [row_of 0 1; row_of 1 5] Pressure
                    "max" None (map pressure [row_of 0 1; row_of 1 5])
                    eq_refl (or_intror (conj eq_refl eq_refl)))).
    reflexivity.
Defined.

(** X23.  A species target whose index is not below the number of mass
    fractions of some row makes [process_results] raise an [IndexError],
    whatever the criterion. *)
Theorem species_index_out_of_range_raises
    (detect_peaks : list Q -> list nat) (table : list Row) (k : nat)
    (ity : string) (compression_time : option Q) :
  (exists r, In r table /\ length (mass_fractions r) <= k) ->
  process_results detect_peaks table (Species k) ity compression_time
  = Raise IndexError.
Proof.
  intros (r & Hin & Hk). unfold process_results. cbn [target_column].
  rewrite (@mapM_raises Row Q (fun r => Numpy.getitem (mass_fractions r) k) table IndexError).
  - reflexivity.
  - intros a e. apply getitem_raises_IndexError.
  - exists r. split; [exact Hin | now apply getitem_out_of_range].
Qed.

Lemma species_index_out_of_range_raises_witness :
  process_results local_maxima two_stage_table (Species 1) "max" None
  = Raise IndexError.
Proof.
  apply (@species_index_out_of_range_raises local_maxima two_stage_table 1 "max" None).
  exists (row_of 0 1). split; [now left | simpl; lia].
Defined.

(** X24.  Under ['max'] and ['d/dt max'], with a detector that returns
    increasing indices inside the series: the overall delay reported is
    never negative, and a first-stage delay that is a number is positive
    and comes with a positive overall delay. *)
Theorem reported_delays_are_not_negative
    (detect_peaks : list Q -> list nat) (table : list Row)
    (it : IgnitionTarget) (ity : string) (compression_time : option Q)
    (r : Delays) :
  (forall s, StronglySorted lt (detect_peaks s)) ->
  (forall s, Forall (fun i => i < length s) (detect_peaks s)) ->
  ity = "max"%string \/ ity = "d/dt max"%string ->
  process_results detect_peaks table it ity compression_time = Ok r ->
  exists d,
    simulated_ignition_delay r = Seconds d /\ (0 <= d)%Q /\
    forall f, simulated_first_stage_delay r = Seconds f -> (0 < f)%Q /\ (0 < d)%Q.
Proof.
  intros Hsorted Hrange Hty Hrun.
  destruct (@process_results_inv detect_peaks table it ity compression_time r Hty Hrun)
    as (target & ds & Hcol & Hds & ->).
  destruct (@ign_delays_max_inv detect_peaks ity (map time table) target ds
              compression_time Hds) as (series & ind & max_ind & Hfind & Hlp).
  pose proof (@find_peaks_detects detect_peaks ity _ _ _ _ Hfind) as Hind.
  assert (Hlen : length series = length (map time table)).
  { apply find_peaks_length in Hfind. apply target_column_length in Hcol.
    rewrite length_map. congruence. }
  assert (Hs : StronglySorted lt ind) by (rewrite Hind; apply Hsorted).
  assert (Hr : Forall (fun i => i < length (map time table)) ind).
  { rewrite Hind, <- Hlen. apply Hrange. }
  rewrite (@ign_delays_max_spec detect_peaks ity (map time table) target series ind
             max_ind compression_time Hfind Hlp Hs Hr) in Hds.
  injection Hds as <-.
  set (t := map time table). set (t_c := time_comp_of compression_time).
  set (members := filter (qualifies t max_ind t_c) ind).
  set (ds := map (fun i => (Numpy.at_ t i - t_c)%Q) members).
  assert (Hpos : forall d, In d ds -> (0 < d)%Q).
  { intros d Hd. unfold ds in Hd. apply in_map_iff in Hd.
    destruct Hd as (i & <- & Hi). now apply qualifies_iff in Hi. }
  unfold report. cbn [simulated_ignition_delay simulated_first_stage_delay].
  destruct ds as [|d0 ds'] eqn:E.
  - exists 0%Q. cbn [length Nat.ltb Nat.leb]. split; [reflexivity|].
    split; [lra | discriminate].
  - assert (Hlast : (0 < last (d0 :: ds') 0)%Q).
    { apply Hpos. apply last_in. discriminate. }
    exists (last (d0 :: ds') 0%Q).
    replace (0 <? length (d0 :: ds')) with true by reflexivity.
    split; [reflexivity|]. split; [lra|].
    intros f. destruct (1 <? length (d0 :: ds')); [|discriminate].
    cbn [hd]. intros [= <-]. split; [|exact Hlast].
    apply Hpos. now left.
Qed.

Lemma reported_delays_are_not_negative_witness :
  exists d,
    simulated_ignition_delay
      {| simulated_ignition_delay := Seconds (4 - 2);
         simulated_first_stage_delay := NaN |} = Seconds d /\ (0 <= d)%Q.
Proof.
  destruct (@reported_delays_are_not_negative
              local_maxima two_stage_table Pressure "max" (Some 2%Q)
              {| simulated_ignition_delay := Seconds (4 - 2);
                 simulated_first_stage_delay := NaN |})
    as (d & Hd & Hpos & _).
  - exact local_maxima_sorted.
  - intro s. eapply Forall_impl; [|apply local_maxima_in_range].
    cbn beta. intros i Hi. lia.
  - now left.
  - reflexivity.
  - exists d. split; [exact Hd | exact Hpos].
Defined.

(** X25.  Under ['1/2 max'] a target in which the detector finds no peak
    makes [process_results] raise a [ValueError]: no delay is reported. *)
Theorem half_max_without_peak_raises
    (detect_peaks : list Q -> list nat) (table : list Row)
    (it : IgnitionTarget) (compression_time : option Q) (target : list Q) :
  target_column table it = Ok target ->
  detect_peaks target = [] ->
  process_results detect_peaks table it "1/2 max" compression_time
  = Raise ValueError.
Proof.
  intros Hcol Hnone. unfold process_results. rewrite Hcol. cbn [bind].
  replace (String.eqb "1/2 max" "max" || String.eqb "1/2 max" "d/dt max")
    with false by reflexivity.
  rewrite String.eqb_refl.
  unfold ign_delays_half_max.
  destruct (Numpy.max target) as [m|e] eqn:E; cbn [bind].
  - rewrite Hnone. reflexivity.
  - destruct target; [|discriminate]. now injection E as <-.
Qed.

Lemma half_max_without_peak_raises_witness :
  process_results local_maxima sigmoid_table Pressure "1/2 max" None
  = Raise ValueError.
Proof.
  apply (@half_max_without_peak_raises local_maxima sigmoid_table Pressure None
           (map pressure sigmoid_table)).
  - reflexivity.
  - reflexivity.
Defined.
